(** * Form engine runtime: transition and navigation engine

    A shallow embedding of the runtime part of [main.py] (helper functions of
    section 6 and the [submit_step] endpoint of section 7) over the schema of
    [migrate.py], followed by the properties the engine's description states
    about it.

    Conventions of the embedding:
    - a table is the list of its rows in the order in which the engine scans
      it; a [SELECT ... WHERE] is a filter of that list, [ORDER BY k] is a
      stable sort of the filtered rows by [k] (rows with equal keys keep the
      scan order, the query fixes nothing more), [fetch_one] is the first row
      of the result;
    - a Python [dict] is a [gmap], a Python [set] a [gset];
    - Python exceptions are the [Raise] results of an error monad; a
      [try/except (ValueError, TypeError)] catches exactly those two classes;
    - [float] and the functions Python applies to it are taken as an
      interface ([PyFloat]): the code only converts to float and compares. *)

From stdpp Require Import base option list gmap strings pretty sorting.
From Stdlib Require Import ZArith Lia Ascii.

Local Open Scope Z_scope.

(** ** Exceptions and the error monad *)

Inductive exn : Type :=
  | ValueError
  | TypeError
  | OverflowError
  | AttributeError
  | SqliteError
  | HTTPException (status_code : Z).

Inductive result (A : Type) : Type :=
  | Ok (a : A)
  | Raise (e : exn).
Arguments Ok {A} a.
Arguments Raise {A} e.

#[global] Instance result_ret : MRet result := λ A a, Ok a.
#[global] Instance result_bind : MBind result := λ A B f m,
  match m with
  | Ok a => f a
  | Raise e => Raise e
  end.
#[global] Instance result_fmap : FMap result := λ A B f m,
  match m with
  | Ok a => Ok (f a)
  | Raise e => Raise e
  end.

(** [except (ValueError, TypeError): return False] around a body that returns
    a boolean. Any other exception goes through. *)
Definition except_ValueError_TypeError (body : result bool) : result bool :=
  match body with
  | Raise ValueError | Raise TypeError => Ok false
  | other => other
  end.

(** ** Python values *)

(** The float interface. [float_of_int] is [float(n)]: it raises
    [OverflowError] ([None] here) on integers too large for a double, and
    never on the 64-bit integers a store column holds.  [float_of_str] is
    [float(s)]: [None] is the [ValueError] of a string that is not a number. *)
Class PyFloat : Type := {
  float : Type;
  float_of_int : Z → option float;
  float_of_str : string → option float;
  float_eqb : float → float → bool;
  float_truth : float → bool;
  float_str : float → string;
  float_of_int64 : ∀ z : Z, -2 ^ 63 ≤ z < 2 ^ 63 → is_Some (float_of_int z);
}.

Section Values.
Context `{PyFloat}.

(** The values the code handles as [Any]: the scalars of a store column or of
    a JSON body, and [PComposite] for a JSON array or object, of which the
    code only ever takes the truth value and the [str()]. *)
Inductive pyval : Type :=
  | PNone
  | PBool (b : bool)
  | PInt (z : Z)
  | PFloat (x : float)
  | PStr (s : string)
  | PComposite (truthy : bool) (repr : string).

Definition is_None (v : pyval) : bool :=
  match v with PNone => true | _ => false end.

(** [bool(v)] *)
Definition py_bool (v : pyval) : bool :=
  match v with
  | PNone => false
  | PBool b => b
  | PInt z => negb (z =? 0)
  | PFloat x => float_truth x
  | PStr s => negb (String.eqb s EmptyString)
  | PComposite t _ => t
  end.

(** [float(v)] *)
Definition py_float (v : pyval) : result float :=
  match v with
  | PNone => Raise TypeError
  | PBool b =>
      match float_of_int (if b then 1 else 0) with
      | Some x => Ok x
      | None => Raise OverflowError
      end
  | PInt z =>
      match float_of_int z with
      | Some x => Ok x
      | None => Raise OverflowError
      end
  | PFloat x => Ok x
  | PStr s =>
      match float_of_str s with
      | Some x => Ok x
      | None => Raise ValueError
      end
  | PComposite _ _ => Raise TypeError
  end.

(** [str(v)] *)
Definition py_str (v : pyval) : string :=
  match v with
  | PNone => "None"
  | PBool true => "True"
  | PBool false => "False"
  | PInt z => pretty z
  | PFloat x => float_str x
  | PStr s => s
  | PComposite _ r => r
  end.

(** The comparison of [v] with the empty string, [==]. *)
Definition is_empty_str (v : pyval) : bool :=
  match v with
  | PStr s => String.eqb s EmptyString
  | _ => false
  end.

(** [isinstance(v, bool)] and [isinstance(v, (int, float))]; [bool] is a
    subclass of [int] in Python. *)
Definition isinstance_bool (v : pyval) : bool :=
  match v with PBool _ => true | _ => false end.
Definition isinstance_int_float (v : pyval) : bool :=
  match v with PBool _ | PInt _ | PFloat _ => true | _ => false end.

(** [next((v for v in vs if v is not None), None)] *)
Fixpoint first_not_None (vs : list pyval) : pyval :=
  match vs with
  | [] => PNone
  | v :: vs' => if is_None v then first_not_None vs' else v
  end.

(** A value whose integer, if it is one, fits 64 bits, as every integer of
    a store column does. *)
Definition within_int64 (v : pyval) : Prop :=
  match v with
  | PInt z => -2 ^ 63 ≤ z < 2 ^ 63
  | _ => True
  end.

(** ** [_check_condition] *)

(** The body of the ['eq'] branch. *)
Definition check_eq (actual_value expected_value : pyval) : result bool :=
  if isinstance_bool expected_value then
    Ok (Bool.eqb (py_bool actual_value) (py_bool expected_value))
  else if isinstance_int_float expected_value then
    a ← py_float actual_value;
    e ← py_float expected_value;
    Ok (float_eqb a e)
  else
    Ok (String.eqb (py_str actual_value) (py_str expected_value)).

(** [_check_condition(actual_value, 'eq', expected_value)], the call the
    ['ne'] branch makes: the body above inside its own [try]. *)
Definition check_condition_eq (actual_value expected_value : pyval) : result bool :=
  except_ValueError_TypeError (check_eq actual_value expected_value).

Definition check_condition (actual_value : pyval) (op_code : string)
    (expected_value : pyval) : result bool :=
  except_ValueError_TypeError (
    if String.eqb op_code "is_true" then
      Ok (Bool.eqb (py_bool actual_value) true)
    else if String.eqb op_code "is_false" then
      Ok (Bool.eqb (py_bool actual_value) false)
    else if String.eqb op_code "eq" then
      check_eq actual_value expected_value
    else if String.eqb op_code "ne" then
      b ← check_condition_eq actual_value expected_value;
      Ok (negb b)
    else if String.eqb op_code "is_empty" then
      Ok (is_None actual_value || is_empty_str actual_value)
    else if String.eqb op_code "not_empty" then
      Ok (negb (is_None actual_value) && negb (is_empty_str actual_value))
    else
      Ok false).

End Values.

(** The operator codes [_check_condition] has a branch for. *)
Definition implemented_ops : list string :=
  ["is_true"; "is_false"; "eq"; "ne"; "is_empty"; "not_empty"].

(** The codes that [migrate.py] seeds into [compare_ops] and that have no
    branch. *)
Definition unimplemented_ops : list string :=
  ["gt"; "gte"; "lt"; "lte"; "in"; "not_in"; "like"; "ilike"].

(** ** The store (schema of [migrate.py]) *)

Section Store.
Context `{PyFloat}.

(** Only the columns the runtime reads or writes are kept.  Timestamps are
    integers; a nullable reference is an [option]; a nullable value column is
    a [pyval], [PNone] for [NULL]. *)

Record form_row := {
  form_id : Z;
  form_code : string;
  form_start_step_id : option Z;
}.

Record form_step_row := {
  fs_id : Z;
  fs_form_id : Z;
  fs_code : string;
  fs_is_terminal : bool;
}.

Record field_data_type_row := {
  dt_id : Z;
  dt_code : string;
}.

Record step_field_row := {
  sf_id : Z;
  sf_step_id : Z;
  sf_code : string;
  sf_data_type_id : Z;
}.

Record compare_op_row := {
  op_id : Z;
  op_code : string;
}.

Record condition_group_row := {
  cg_id : Z;
  cg_form_id : Z;
  cg_logic_op : string;
}.

Record condition_row := {
  c_id : Z;
  c_group_id : Z;
  c_field_id : Z;
  c_op_id : Z;
  c_value_text : pyval;
  c_value_num : pyval;
  c_value_bool : pyval;
  c_value_date : pyval;
  c_option_code : pyval;
  c_rhs_field_id : option Z;
  c_position : Z;
}.

Record step_transition_row := {
  t_id : Z;
  t_form_id : Z;
  t_source_step_id : Z;
  t_target_step_id : Z;
  t_condition_group_id : Z;
  t_priority : Z;
}.

Record instance_status_row := {
  st_id : Z;
  st_code : string;
}.

Record form_instance_row := {
  fi_id : Z;
  fi_form_id : Z;
  fi_user_id : Z;
  fi_status_id : Z;
  fi_current_step_id : option Z;
  fi_updated_at : Z;
}.

Record instance_step_row := {
  is_id : Z;
  is_instance_id : Z;
  is_step_id : Z;
  is_status_code : string;
  is_entered_at : Z;
  is_left_at : option Z;
}.

Record instance_answer_row := {
  a_id : Z;
  a_instance_id : Z;
  a_field_id : Z;
  a_value_text : pyval;
  a_value_num : pyval;
  a_value_bool : pyval;
  a_value_date : pyval;
  a_updated_at : Z;
}.

Record database := {
  forms : list form_row;
  form_steps : list form_step_row;
  field_data_types : list field_data_type_row;
  step_fields : list step_field_row;
  compare_ops : list compare_op_row;
  condition_groups : list condition_group_row;
  conditions : list condition_row;
  step_transitions : list step_transition_row;
  instance_statuses : list instance_status_row;
  form_instances : list form_instance_row;
  instance_steps : list instance_step_row;
  instance_answers : list instance_answer_row;
}.

Definition set_form_instances (rows : list form_instance_row) (db : database) : database :=
  {| forms := forms db; form_steps := form_steps db;
     field_data_types := field_data_types db; step_fields := step_fields db;
     compare_ops := compare_ops db; condition_groups := condition_groups db;
     conditions := conditions db; step_transitions := step_transitions db;
     instance_statuses := instance_statuses db;
     form_instances := rows;
     instance_steps := instance_steps db;
     instance_answers := instance_answers db |}.

Definition set_instance_steps (rows : list instance_step_row) (db : database) : database :=
  {| forms := forms db; form_steps := form_steps db;
     field_data_types := field_data_types db; step_fields := step_fields db;
     compare_ops := compare_ops db; condition_groups := condition_groups db;
     conditions := conditions db; step_transitions := step_transitions db;
     instance_statuses := instance_statuses db;
     form_instances := form_instances db;
     instance_steps := rows;
     instance_answers := instance_answers db |}.

Definition set_instance_answers (rows : list instance_answer_row) (db : database) : database :=
  {| forms := forms db; form_steps := form_steps db;
     field_data_types := field_data_types db; step_fields := step_fields db;
     compare_ops := compare_ops db; condition_groups := condition_groups db;
     conditions := conditions db; step_transitions := step_transitions db;
     instance_statuses := instance_statuses db;
     form_instances := form_instances db;
     instance_steps := instance_steps db;
     instance_answers := rows |}.

Definition set_form_steps (rows : list form_step_row) (db : database) : database :=
  {| forms := forms db; form_steps := rows;
     field_data_types := field_data_types db; step_fields := step_fields db;
     compare_ops := compare_ops db; condition_groups := condition_groups db;
     conditions := conditions db; step_transitions := step_transitions db;
     instance_statuses := instance_statuses db;
     form_instances := form_instances db;
     instance_steps := instance_steps db;
     instance_answers := instance_answers db |}.

(** *** Query primitives *)

(** [WHERE]: the rows that satisfy a condition, in scan order. *)
Definition where_ {A : Type} (p : A → bool) (rows : list A) : list A :=
  List.filter p rows.

(** [ORDER BY key]: a stable insertion sort. *)
Fixpoint insert_by {A : Type} (key : A → Z) (x : A) (rows : list A) : list A :=
  match rows with
  | [] => [x]
  | y :: rows' =>
      if key x <=? key y then x :: rows else y :: insert_by key x rows'
  end.

Definition order_by {A : Type} (key : A → Z) (rows : list A) : list A :=
  foldr (insert_by key) [] rows.

(** [INTEGER PRIMARY KEY] of a new row: one more than the largest in use. *)
Definition next_id (ids : list Z) : Z :=
  foldr Z.max 0 ids + 1.

(** The test [if step_id:] on an optional integer: the id when the test
    passes. Both [None] and [0] are false in Python. *)
Definition if_truthy (step_id : option Z) : option Z :=
  match step_id with
  | Some z => if z =? 0 then None else Some z
  | None => None
  end.

End Store.

(** ** The runtime helpers of [main.py] *)

Section Runtime.
Context `{PyFloat}.

(** *** [_get_all_answers] *)

(** The row's value: the first column that is not [NULL] among
    [(value_bool, value_text, value_num, value_date)]. *)
Definition answer_value (row : instance_answer_row) : pyval :=
  first_not_None
    [a_value_bool row; a_value_text row; a_value_num row; a_value_date row].

(** [{row.field_id: ... for row in rows}]: a later row replaces an earlier one
    with the same key. *)
Definition get_all_answers (db : database) (instance_id : Z) : gmap Z pyval :=
  let rows := where_ (λ a, a_instance_id a =? instance_id) (instance_answers db) in
  foldl (λ answers_map row, <[a_field_id row := answer_value row]> answers_map) ∅ rows.

(** [all_answers.get(field_id)] *)
Definition dict_get (all_answers : gmap Z pyval) (field_id : Z) : pyval :=
  default PNone (all_answers !! field_id).

(** *** [_evaluate_group] *)

(** [SELECT logic_op FROM condition_groups WHERE id = :id] *)
Definition fetch_group (db : database) (group_id : Z) : option condition_group_row :=
  head (where_ (λ g, cg_id g =? group_id) (condition_groups db)).

(** [FROM conditions c JOIN compare_ops op ON c.op_id = op.id
     WHERE c.group_id = :group_id ORDER BY c.position]: each row is a
    condition with the code of its operator. *)
Definition fetch_conditions (db : database) (group_id : Z)
    : list (condition_row * string) :=
  let joined :=
    c ← conditions db;
    op ← where_ (λ op, c_op_id c =? op_id op) (compare_ops db);
    [(c, op_code op)] in
  order_by (λ r, c_position r.1)
    (where_ (λ r, c_group_id r.1 =? group_id) joined).

(** The operand of a condition: the first column that is not [NULL] among
    [(value_bool, value_text, value_num, value_date, option_code)]. *)
Definition expected_of (cond : condition_row) : pyval :=
  first_not_None
    [c_value_bool cond; c_value_text cond; c_value_num cond;
     c_value_date cond; c_option_code cond].

(** [all(results)] and [any(results)] *)
Definition py_all (results : list bool) : bool := forallb id results.
Definition py_any (results : list bool) : bool := existsb id results.

Definition evaluate_group (db : database) (group_id : Z)
    (all_answers : gmap Z pyval) : result bool :=
  match fetch_group db group_id with
  | None => Ok false
  | Some group_row =>
      let conditions_rows := fetch_conditions db group_id in
      match conditions_rows with
      | [] => Ok true
      | _ =>
          results ← mapM (λ r : condition_row * string,
                            let actual_value := dict_get all_answers (c_field_id r.1) in
                            let expected_value := expected_of r.1 in
                            check_condition actual_value r.2 expected_value)
                         conditions_rows;
          Ok (if String.eqb (cg_logic_op group_row) "AND"
              then py_all results else py_any results)
      end
  end.

(** *** [_get_valid_forward_steps] *)

(** [SELECT target_step_id, condition_group_id FROM step_transitions
     WHERE source_step_id = :id ORDER BY priority] *)
Definition fetch_transitions (db : database) (source_step_id : Z)
    : list step_transition_row :=
  order_by t_priority
    (where_ (λ t, t_source_step_id t =? source_step_id) (step_transitions db)).

(** The loop over the transitions: the targets whose group is true. *)
Fixpoint allowed_targets (db : database) (all_answers : gmap Z pyval)
    (transitions : list step_transition_row) : result (list Z) :=
  match transitions with
  | [] => Ok []
  | trans :: rest =>
      ok ← evaluate_group db (t_condition_group_id trans) all_answers;
      allowed ← allowed_targets db all_answers rest;
      Ok (if ok : bool then t_target_step_id trans :: allowed else allowed)
  end.

Definition get_valid_forward_steps (db : database) (instance_id source_step_id : Z)
    : result (list Z) :=
  let transitions := fetch_transitions db source_step_id in
  match transitions with
  | [] => Ok []
  | _ =>
      let all_answers := get_all_answers db instance_id in
      allowed_targets db all_answers transitions
  end.

(** *** [_determine_next_step] *)

(** [SELECT is_terminal FROM form_steps WHERE id = :id] *)
Definition fetch_step (db : database) (step_id : Z) : option form_step_row :=
  head (where_ (λ s, fs_id s =? step_id) (form_steps db)).

(** Reading [.is_terminal] of a missing row is an [AttributeError]. *)
Definition determine_next_step (db : database) (instance_id current_step_id : Z)
    : result (option Z) :=
  match fetch_step db current_step_id with
  | None => Raise AttributeError
  | Some current_step =>
      if fs_is_terminal current_step then Ok None
      else
        valid_steps ← get_valid_forward_steps db instance_id current_step_id;
        Ok (head valid_steps)
  end.

(** *** [_validate_navigation] *)

(** [SELECT step_id FROM instance_steps WHERE instance_id = :id AND
     status_code = 'completed'] as a set. *)
Definition completed_step_ids (db : database) (instance_id : Z) : gset Z :=
  list_to_set
    (map is_step_id
       (where_ (λ r, (is_instance_id r =? instance_id)
                     && String.eqb (is_status_code r) "completed")
               (instance_steps db))).

Definition validate_navigation (db : database) (instance_id : Z)
    (current_step_id : option Z) (target_step_id : Z) : result unit :=
  let allowed_ids := completed_step_ids db instance_id in
  allowed_ids ←
    match if_truthy current_step_id with
    | Some cur =>
        forward_ids ← get_valid_forward_steps db instance_id cur;
        Ok (allowed_ids ∪ {[cur]} ∪ list_to_set forward_ids)
    | None => Ok allowed_ids
    end;
  if bool_decide (target_step_id ∈ allowed_ids) then Ok ()
  else Raise (HTTPException 403).

(** *** Vocabulary of the properties *)

(** Every value column of the answers and of the conditions holds a value
    of the store (its integers fit 64 bits). *)
Definition answer_row_within (a : instance_answer_row) : Prop :=
  Forall within_int64
    [a_value_bool a; a_value_text a; a_value_num a; a_value_date a].

Definition condition_row_within (c : condition_row) : Prop :=
  Forall within_int64
    [c_value_bool c; c_value_text c; c_value_num c; c_value_date c;
     c_option_code c].

Definition store_within_int64 (db : database) : Prop :=
  Forall answer_row_within (instance_answers db)
  ∧ Forall condition_row_within (conditions db).

(** A transition whose group evaluates to true. *)
Definition eligible (db : database) (all_answers : gmap Z pyval)
    (t : step_transition_row) : bool :=
  match evaluate_group db (t_condition_group_id t) all_answers with
  | Ok true => true
  | _ => false
  end.





End Runtime.

(** ** Navigation summary and the session cache *)

Section Navigation.
Context `{PyFloat}.

(** [_get_step_codes]: [{row.id: row.code for row in rows}] over
    [SELECT id, code FROM form_steps WHERE id IN (...)]. *)
Definition get_step_codes (db : database) (step_ids : list Z) : gmap Z string :=
  match step_ids with
  | [] => ∅
  | _ =>
      let rows := where_ (λ s, bool_decide (fs_id s ∈ step_ids)) (form_steps db) in
      foldl (λ m row, <[fs_id row := fs_code row]> m) ∅ rows
  end.

(** [list(dict.fromkeys(codes))]: duplicates removed, first occurrences kept
    in order. *)
Definition append_new (codes : list string) (code : string) : list string :=
  if bool_decide (code ∈ codes) then codes else codes ++ [code].

Definition fromkeys (codes : list string) : list string :=
  foldl append_new [] codes.

Record navigation := {
  nav_current_step_code : option string;
  nav_completed_steps : list string;
  nav_available_steps : list string;
}.

(** [SELECT fs.id, fs.code FROM instance_steps ist JOIN form_steps fs
     ON ist.step_id = fs.id WHERE ist.instance_id = :instance_id AND
     ist.status_code = 'completed' ORDER BY ist.entered_at] *)
Definition fetch_completed (db : database) (instance_id : Z)
    : list (instance_step_row * form_step_row) :=
  let joined :=
    ist ← instance_steps db;
    fs ← where_ (λ fs, is_step_id ist =? fs_id fs) (form_steps db);
    [(ist, fs)] in
  order_by (λ r, is_entered_at r.1)
    (where_ (λ r, (is_instance_id r.1 =? instance_id)
                  && String.eqb (is_status_code r.1) "completed") joined).

Definition get_navigation_summary (db : database) (instance_id : Z)
    (current_step_id : option Z) : result navigation :=
  let completed_codes := map (λ r, fs_code r.2) (fetch_completed db instance_id) in
  let available_codes := fromkeys completed_codes in
  match if_truthy current_step_id with
  | None =>
      Ok {| nav_current_step_code := None;
            nav_completed_steps := completed_codes;
            nav_available_steps := available_codes |}
  | Some cur =>
      let current_row := fetch_step db cur in
      let current_code := fs_code <$> current_row in
      let available_codes :=
        match current_code with
        | Some code => append_new available_codes code
        | None => available_codes
        end in
      forward_ids ← get_valid_forward_steps db instance_id cur;
      let forward_codes_map := get_step_codes db forward_ids in
      let available_codes :=
        foldl (λ acc step_id,
                 match forward_codes_map !! step_id with
                 | Some code =>
                     if String.eqb code EmptyString then acc else append_new acc code
                 | None => acc
                 end)
              available_codes forward_ids in
      Ok {| nav_current_step_code := current_code;
            nav_completed_steps := completed_codes;
            nav_available_steps := available_codes |}
  end.

(** An entry of the process-local [form_sessions] dictionary. *)
Record session_state := {
  ss_form_id : Z;
  ss_form_code : string;
  ss_current_step_id : option Z;
  ss_current_step_code : option string;
  ss_completed_steps : list string;
  ss_available_steps : list string;
}.

(** The state a request runs in: the store and the session cache. *)
Record world := {
  w_db : database;
  form_sessions : gmap Z session_state;
}.

(** Stateful code: a run returns a result or an exception, and the state it
    leaves.  Every statement is committed as it runs, so an exception keeps
    the writes made before it, except inside [transaction]. *)
Definition M (A : Type) : Type := world → result A * world.

#[global] Instance M_ret : MRet M := λ A a w, (Ok a, w).
#[global] Instance M_bind : MBind M := λ A B f m w,
  match m w with
  | (Ok a, w') => f a w'
  | (Raise e, w') => (Raise e, w')
  end.

(** A computation that touches no state. *)
Definition lift {A : Type} (r : result A) : M A := λ w, (r, w).

(** A read-only helper run in the current store. *)
Definition query {A : Type} (f : database → result A) : M A :=
  λ w, (f (w_db w), w).

(** [database.execute] of an [UPDATE] or [INSERT]. *)
Definition execute (f : database → database) : M unit :=
  λ w, (Ok (), {| w_db := f (w_db w); form_sessions := form_sessions w |}).

Definition raise {A : Type} (e : exn) : M A := λ w, (Raise e, w).

(** [async with database.transaction():] the store is rolled back when the
    block raises. *)
Definition transaction {A : Type} (block : M A) : M A :=
  λ w,
    match block w with
    | (Raise e, w') =>
        (Raise e, {| w_db := w_db w; form_sessions := form_sessions w' |})
    | done => done
    end.

Definition fetch_instance (db : database) (instance_id : Z) : option form_instance_row :=
  head (where_ (λ i, fi_id i =? instance_id) (form_instances db)).

Definition fetch_form (db : database) (id : Z) : option form_row :=
  head (where_ (λ f, form_id f =? id) (forms db)).

Definition sync_session_state (instance_id : Z) : M session_state :=
  λ w,
    let db := w_db w in
    match fetch_instance db instance_id with
    | None => (Raise (HTTPException 404), w)
    | Some session_row =>
        match fetch_form db (fi_form_id session_row) with
        | None => (Raise (HTTPException 404), w)
        | Some form_row =>
            match get_navigation_summary db instance_id
                    (fi_current_step_id session_row) with
            | Raise e => (Raise e, w)
            | Ok nav =>
                let state :=
                  {| ss_form_id := fi_form_id session_row;
                     ss_form_code := form_code form_row;
                     ss_current_step_id := fi_current_step_id session_row;
                     ss_current_step_code := nav_current_step_code nav;
                     ss_completed_steps := nav_completed_steps nav;
                     ss_available_steps := nav_available_steps nav |} in
                (Ok state,
                 {| w_db := db;
                    form_sessions := <[instance_id := state]> (form_sessions w) |})
            end
        end
    end.

End Navigation.

(** ** Answer store and submission *)

Section Submission.
Context `{PyFloat}.

(** A submitted pair, [class Answer(BaseModel)]. *)
Record Answer := {
  field_code : string;
  value : pyval;
}.

(** [SELECT f.id, f.code, dt.code AS data_type FROM step_fields f
     JOIN field_data_types dt ON f.data_type_id = dt.id
     WHERE f.step_id = :step_id] *)
Definition fetch_fields_info (db : database) (step_id : Z)
    : list (step_field_row * string) :=
  let joined :=
    f ← step_fields db;
    dt ← where_ (λ dt, sf_data_type_id f =? dt_id dt) (field_data_types db);
    [(f, dt_code dt)] in
  where_ (λ r, sf_step_id r.1 =? step_id) joined.

(** [{row.code: (row.id, row.data_type) for row in fields_info}] *)
Definition field_map_of (fields_info : list (step_field_row * string))
    : gmap string (Z * string) :=
  foldl (λ m r, <[sf_code r.1 := (sf_id r.1, r.2)]> m) ∅ fields_info.

(** The four value columns of an answer. *)
Record answer_values := {
  v_text : pyval;
  v_num : pyval;
  v_bool : pyval;
  v_date : pyval;
}.

(** The coercion of a raw value by the data type of its field. *)
Definition coerce (data_type : string) (raw_value : pyval) : result answer_values :=
  if String.eqb data_type "boolean" then
    Ok {| v_text := PNone; v_num := PNone;
          v_bool := if is_None raw_value then PNone else PBool (py_bool raw_value);
          v_date := PNone |}
  else if String.eqb data_type "integer" || String.eqb data_type "decimal" then
    x ← (if is_None raw_value then Ok PNone else PFloat <$> py_float raw_value);
    Ok {| v_text := PNone; v_num := x; v_bool := PNone; v_date := PNone |}
  else if String.eqb data_type "date" || String.eqb data_type "datetime" then
    Ok {| v_text := PNone; v_num := PNone; v_bool := PNone; v_date := raw_value |}
  else
    Ok {| v_text := if is_None raw_value then PNone else PStr (py_str raw_value);
          v_num := PNone; v_bool := PNone; v_date := PNone |}.

(** Binding a Python value as a statement parameter: the driver refuses a
    list or a dict, and an integer that does not fit 64 bits.  The store is
    taken to return a bound value as it was bound (the type affinity of the
    columns is not modelled). *)
Definition bind_param (v : pyval) : result pyval :=
  match v with
  | PComposite _ _ => Raise SqliteError
  | PInt z =>
      if (-2 ^ 63 <=? z) && (z <? 2 ^ 63) then Ok v else Raise OverflowError
  | _ => Ok v
  end.

(** [INSERT INTO instance_answers ... ON CONFLICT(instance_id, field_id)
     DO UPDATE SET ...] *)
Definition upsert_answer (now instance_id field_id : Z) (vals : answer_values)
    (db : database) : database :=
  let hit (a : instance_answer_row) :=
    (a_instance_id a =? instance_id) && (a_field_id a =? field_id) in
  let rows := instance_answers db in
  if existsb hit rows then
    set_instance_answers
      (map (λ a, if hit a then
                   {| a_id := a_id a; a_instance_id := instance_id;
                      a_field_id := field_id;
                      a_value_text := v_text vals; a_value_num := v_num vals;
                      a_value_bool := v_bool vals; a_value_date := v_date vals;
                      a_updated_at := now |}
                 else a) rows) db
  else
    set_instance_answers
      (rows ++ [{| a_id := next_id (map a_id rows); a_instance_id := instance_id;
                   a_field_id := field_id;
                   a_value_text := v_text vals; a_value_num := v_num vals;
                   a_value_bool := v_bool vals; a_value_date := v_date vals;
                   a_updated_at := now |}]) db.

(** The loop of [_save_answers] over the submitted pairs. *)
Fixpoint save_loop (now instance_id : Z) (field_map : gmap string (Z * string))
    (answers : list Answer) : M unit :=
  match answers with
  | [] => mret ()
  | ans :: rest =>
      match field_map !! field_code ans with
      | None => save_loop now instance_id field_map rest
      | Some (field_id, data_type) =>
          vals ← lift (coerce data_type (value ans));
          _ ← lift (bind_param (v_date vals));
          _ ← execute (upsert_answer now instance_id field_id vals);
          save_loop now instance_id field_map rest
      end
  end.

Definition save_answers (now instance_id step_id : Z) (answers : list Answer)
    : M unit :=
  fields_info ← query (λ db, Ok (fetch_fields_info db step_id));
  let field_map := field_map_of fields_info in
  transaction (save_loop now instance_id field_map answers).

(** [_get_instance_status_id] *)
Definition get_instance_status_id (db : database) (code : string) : result Z :=
  match head (where_ (λ r, String.eqb (st_code r) code) (instance_statuses db)) with
  | None => Raise ValueError
  | Some row => Ok (st_id row)
  end.

Record SubmitStepResponse := {
  r_instance_id : Z;
  r_next_step_id : option Z;
  r_next_step_code : option string;
  r_is_complete : bool;
  r_completed_steps : list string;
  r_available_steps : list string;
}.

(** [UPDATE instance_steps SET status_code = 'completed', left_at = now
     WHERE instance_id = :id AND step_id = :step_id] *)
Definition complete_step (now instance_id step_id : Z) (db : database) : database :=
  set_instance_steps
    (map (λ r, if (is_instance_id r =? instance_id) && (is_step_id r =? step_id)
               then {| is_id := is_id r; is_instance_id := is_instance_id r;
                       is_step_id := is_step_id r; is_status_code := "completed";
                       is_entered_at := is_entered_at r; is_left_at := Some now |}
               else r) (instance_steps db)) db.

(** [UPDATE form_instances SET current_step_id = :step_id, updated_at = now
     WHERE id = :id] *)
Definition move_instance (now instance_id step_id : Z) (db : database) : database :=
  set_form_instances
    (map (λ i, if fi_id i =? instance_id
               then {| fi_id := fi_id i; fi_form_id := fi_form_id i;
                       fi_user_id := fi_user_id i; fi_status_id := fi_status_id i;
                       fi_current_step_id := Some step_id; fi_updated_at := now |}
               else i) (form_instances db)) db.

(** [INSERT INTO instance_steps (instance_id, step_id, status_code, entered_at)
     VALUES (:id, :step_id, 'entered', now)] *)
Definition log_entry (now instance_id step_id : Z) (db : database) : database :=
  set_instance_steps
    (instance_steps db ++
       [{| is_id := next_id (map is_id (instance_steps db));
           is_instance_id := instance_id; is_step_id := step_id;
           is_status_code := "entered"; is_entered_at := now;
           is_left_at := None |}]) db.

(** [UPDATE form_instances SET status_id = :sid, current_step_id = NULL,
     updated_at = now WHERE id = :id] *)
Definition finish_instance (now instance_id status_id : Z) (db : database) : database :=
  set_form_instances
    (map (λ i, if fi_id i =? instance_id
               then {| fi_id := fi_id i; fi_form_id := fi_form_id i;
                       fi_user_id := fi_user_id i; fi_status_id := status_id;
                       fi_current_step_id := None; fi_updated_at := now |}
               else i) (form_instances db)) db.

Definition submit_step (now instance_id : Z) (answers : list Answer)
    : M SubmitStepResponse :=
  instance ← query (λ db, Ok (fetch_instance db instance_id));
  match instance ≫= (λ i, if_truthy (fi_current_step_id i)) with
  | None => raise (HTTPException 404)
  | Some current_step_id =>
      _ ← save_answers now instance_id current_step_id answers;
      _ ← execute (complete_step now instance_id current_step_id);
      next_step_id ← query (λ db, determine_next_step db instance_id current_step_id);
      match if_truthy next_step_id with
      | Some next =>
          _ ← execute (move_instance now instance_id next);
          _ ← execute (log_entry now instance_id next);
          state ← sync_session_state instance_id;
          mret {| r_instance_id := instance_id;
                  r_next_step_id := Some next;
                  r_next_step_code := ss_current_step_code state;
                  r_is_complete := false;
                  r_completed_steps := ss_completed_steps state;
                  r_available_steps := ss_available_steps state |}
      | None =>
          status_completed_id ← query (λ db, get_instance_status_id db "completed");
          _ ← execute (finish_instance now instance_id status_completed_id);
          state ← sync_session_state instance_id;
          mret {| r_instance_id := instance_id;
                  r_next_step_id := None;
                  r_next_step_code := None;
                  r_is_complete := true;
                  r_completed_steps := ss_completed_steps state;
                  r_available_steps := ss_available_steps state |}
      end
  end.

(** *** Vocabulary of the properties *)



(** The answer row holds the given values for the field of the instance,
    written at [now]. *)
Definition stored (now instance_id field_id : Z) (vals : answer_values)
    (r : instance_answer_row) : Prop :=
  a_instance_id r = instance_id ∧ a_field_id r = field_id
  ∧ a_value_text r = v_text vals ∧ a_value_num r = v_num vals
  ∧ a_value_bool r = v_bool vals ∧ a_value_date r = v_date vals
  ∧ a_updated_at r = now.

(** The instance row once the instance is finished with status [sid]. *)
Definition finished (now sid : Z) (i : form_instance_row) : form_instance_row :=
  {| fi_id := fi_id i; fi_form_id := fi_form_id i; fi_user_id := fi_user_id i;
     fi_status_id := sid; fi_current_step_id := None; fi_updated_at := now |}.

End Submission.

(** ** The session endpoints and the routes query *)

Section Endpoints.
Context `{PyFloat}.

(** [_get_id_by_code("forms", code)]: [SELECT id FROM forms WHERE code =
    :code], status 404 when there is no such row. *)
Definition get_form_id_by_code (db : database) (code : string) : result Z :=
  match head (where_ (λ f, String.eqb (form_code f) code) (forms db)) with
  | None => Raise (HTTPException 404)
  | Some row => Ok (form_id row)
  end.

(** [_get_step_id_by_code]: [SELECT id FROM form_steps WHERE form_id = :fid
    AND code = :code]. *)
Definition get_step_id_by_code (db : database) (form_id : Z) (step_code : string)
    : result Z :=
  match head (where_ (λ s, (fs_form_id s =? form_id)
                           && String.eqb (fs_code s) step_code)
                (form_steps db)) with
  | None => Raise (HTTPException 404)
  | Some row => Ok (fs_id row)
  end.

(** [_get_session_for_form] *)
Definition get_session_for_form (form_code : string) (session_id : Z)
    : M (Z * session_state) :=
  form_id ← query (λ db, get_form_id_by_code db form_code);
  session_row ← query (λ db, Ok (fetch_instance db session_id));
  match session_row with
  | None => raise (HTTPException 404)
  | Some row =>
      if fi_form_id row =? form_id then
        state ← sync_session_state session_id;
        mret (form_id, state)
      else raise (HTTPException 404)
  end.

(** The first query of [_fetch_routes_for_step]: [SELECT id FROM
    step_transitions WHERE form_id = :form_id AND source_step_id = :step_id
    ORDER BY priority, id], the stable sort by priority of the rows sorted
    by id.  The function then reads each route by its id, in this order. *)
Definition fetch_route_ids (db : database) (form_id step_id : Z) : list Z :=
  map t_id
    (order_by t_priority
       (order_by t_id
          (where_ (λ t, (t_form_id t =? form_id) && (t_source_step_id t =? step_id))
             (step_transitions db)))).

(** [_get_step_details] renders a step from tables that are not kept here
    (input types, options, dictionary values).  It only reads: it is taken
    as a function of the store that returns the response or raises. *)
Variable StepResponse : Type.
Variable get_step_details : database → Z → Z → option Z → result StepResponse.


(** [get_session_step], [GET .../sessions/{session_id}/steps/{step_code}] *)
Definition get_session_step (form_code : string) (session_id : Z)
    (step_code : string) : M StepResponse :=
  r ← get_session_for_form form_code session_id;
  let form_id := r.1 in
  let state := r.2 in
  step_id ← query (λ db, get_step_id_by_code db form_id step_code);
  _ ← query (λ db, validate_navigation db session_id (ss_current_step_id state) step_id);
  query (λ db, get_step_details db session_id step_id (ss_current_step_id state)).

(** [update_session_step], [PUT .../sessions/{session_id}/steps/{step_code}] *)
Definition update_session_step (now : Z) (form_code : string) (session_id : Z)
    (step_code : string) (answers : list Answer) : M StepResponse :=
  r ← get_session_for_form form_code session_id;
  let form_id := r.1 in
  let state := r.2 in
  step_id ← query (λ db, get_step_id_by_code db form_id step_code);
  _ ← query (λ db, validate_navigation db session_id (ss_current_step_id state) step_id);
  _ ← save_answers now session_id step_id answers;
  updated_state ← sync_session_state session_id;
  query (λ db, get_step_details db session_id step_id
                 (ss_current_step_id updated_state)).

(** *** Vocabulary of the properties *)

(** The key of the constraint [UNIQUE (instance_id, field_id)]. *)
Definition answer_key (a : instance_answer_row) : Z * Z :=
  (a_instance_id a, a_field_id a).


(** The rows of the answers of an instance for a field. *)
Definition answer_rows (db : database) (instance_id field_id : Z)
    : list instance_answer_row :=
  where_ (λ a, (a_instance_id a =? instance_id) && (a_field_id a =? field_id))
    (instance_answers db).

(** The instance row once the instance has moved to the step [next]. *)
Definition moved (now next : Z) (i : form_instance_row) : form_instance_row :=
  {| fi_id := fi_id i; fi_form_id := fi_form_id i; fi_user_id := fi_user_id i;
     fi_status_id := fi_status_id i; fi_current_step_id := Some next;
     fi_updated_at := now |}.

(** The ledger row that records the entry into a step. *)
Definition entry_row (now instance_id step_id : Z) (db : database) : instance_step_row :=
  {| is_id := next_id (map is_id (instance_steps db));
     is_instance_id := instance_id; is_step_id := step_id;
     is_status_code := "entered"; is_entered_at := now; is_left_at := None |}.

(** The world in which the rest of [submit_step] runs once the answers are
    saved (in [w1]) and the ledger rows of the step are completed. *)
Definition after_completion (now instance_id step_id : Z) (w1 : world) : world :=
  {| w_db := complete_step now instance_id step_id (w_db w1);
     form_sessions := form_sessions w1 |}.

(** The transitions out of a step that are eligible. *)
Definition eligible_from (db : database) (instance_id source_step_id : Z)
    (t : step_transition_row) : bool :=
  (t_source_step_id t =? source_step_id)
  && eligible db (get_all_answers db instance_id) t.

End Endpoints.

(** ** An instance of the float interface for closed examples *)

(** The doubles whose value is an integer, represented by that integer.
    [round53] rounds an integer to 53 significant bits, ties to even, as the
    conversion of an [int] does, and the conversion overflows from
    [2^1024 - 2^970] on.  A string is read as an optional sign followed by
    decimal digits.  The instance is there to evaluate the model on small
    integers and on strings that hold no number; it is not a model of the
    other strings [float] accepts. *)
Module IntFloat.

Definition round53 (z : Z) : Z :=
  let a := Z.abs z in
  let e := Z.log2 a - 52 in
  if e <=? 0 then z
  else
    let q := a / 2 ^ e in
    let r := a mod 2 ^ e in
    let half := 2 ^ (e - 1) in
    let q' :=
      if r <? half then q
      else if half <? r then q + 1
      else if Z.even q then q else q + 1 in
    Z.sgn z * (q' * 2 ^ e).

Definition of_int (z : Z) : option Z :=
  if Z.abs z <? 2 ^ 1024 - 2 ^ 970 then Some (round53 z) else None.

Definition digit (c : ascii) : option Z :=
  let n := Z.of_nat (nat_of_ascii c) in
  if (48 <=? n) && (n <=? 57) then Some (n - 48) else None.

Fixpoint digits (acc : Z) (s : string) : option Z :=
  match s with
  | EmptyString => Some acc
  | String c s' => d ← digit c; digits (10 * acc + d) s'
  end.

Definition of_str (s : string) : option Z :=
  match s with
  | EmptyString => None
  | String "-"%char (String c s') => z ← digits 0 (String c s'); of_int (- z)
  | String "+"%char (String c s') => z ← digits 0 (String c s'); of_int z
  | _ => z ← digits 0 s; of_int z
  end.

Lemma of_int_int64 (z : Z) : -2 ^ 63 ≤ z < 2 ^ 63 → is_Some (of_int z).
Proof.
  intros Hz. unfold of_int.
  assert (Hlt : Z.abs z < 2 ^ 1024 - 2 ^ 970).
  { assert (2 ^ 63 < 2 ^ 1024 - 2 ^ 970) by (vm_compute; reflexivity). lia. }
  apply Z.ltb_lt in Hlt. rewrite Hlt. eauto.
Qed.

#[export] Instance int_float : PyFloat := {|
  float := Z;
  float_of_int := of_int;
  float_of_str := of_str;
  float_eqb := Z.eqb;
  float_truth := λ x, negb (x =? 0);
  float_str := λ x, pretty x +:+ ".0";
  float_of_int64 := of_int_int64;
|}.

End IntFloat.

(** ** The seeded store of [migrate.py] *)

Section Demo.
Context `{PyFloat}.

(** A condition row with every operand column [NULL], as the demo data
    inserts them ([position] takes its default, 100). *)
Definition bare_condition (id group_id field_id op : Z) : condition_row :=
  {| c_id := id; c_group_id := group_id; c_field_id := field_id; c_op_id := op;
     c_value_text := PNone; c_value_num := PNone; c_value_bool := PNone;
     c_value_date := PNone; c_option_code := PNone; c_rhs_field_id := None;
     c_position := 100 |}.

(** [SCHEMA_SQL] seeds and [DEMO_DATA_SQL]: the form [dev_survey] with steps
    10, 20 and 30 (terminal), the field [is_dev] (101) on step 10, the groups
    1 ("is_dev == true": [is_true]), 2 ("is_dev == false": [is_false]) and 99,
    and the transitions 10 -> 20 (priority 10), 10 -> 30 (priority 20) and
    20 -> 30. No instance is running. *)
Definition demo_db : database :=
  {| forms := [ {| form_id := 1; form_code := "dev_survey";
                   form_start_step_id := Some 10 |} ];
     form_steps :=
       [ {| fs_id := 10; fs_form_id := 1; fs_code := "step_1_intro";
            fs_is_terminal := false |};
         {| fs_id := 20; fs_form_id := 1; fs_code := "step_2_dev";
            fs_is_terminal := false |};
         {| fs_id := 30; fs_form_id := 1; fs_code := "step_3_review";
            fs_is_terminal := true |} ];
     field_data_types :=
       [ {| dt_id := 1; dt_code := "string" |}; {| dt_id := 2; dt_code := "text" |};
         {| dt_id := 3; dt_code := "integer" |}; {| dt_id := 4; dt_code := "decimal" |};
         {| dt_id := 5; dt_code := "boolean" |}; {| dt_id := 6; dt_code := "date" |};
         {| dt_id := 7; dt_code := "datetime" |} ];
     step_fields :=
       [ {| sf_id := 101; sf_step_id := 10; sf_code := "is_dev"; sf_data_type_id := 5 |};
         {| sf_id := 201; sf_step_id := 20; sf_code := "fav_lang"; sf_data_type_id := 1 |};
         {| sf_id := 202; sf_step_id := 20; sf_code := "dev_years"; sf_data_type_id := 3 |} ];
     compare_ops :=
       [ {| op_id := 1; op_code := "eq" |}; {| op_id := 2; op_code := "ne" |};
         {| op_id := 3; op_code := "gt" |}; {| op_id := 4; op_code := "gte" |};
         {| op_id := 5; op_code := "lt" |}; {| op_id := 6; op_code := "lte" |};
         {| op_id := 7; op_code := "in" |}; {| op_id := 8; op_code := "not_in" |};
         {| op_id := 9; op_code := "like" |}; {| op_id := 10; op_code := "ilike" |};
         {| op_id := 11; op_code := "is_true" |}; {| op_id := 12; op_code := "is_false" |};
         {| op_id := 13; op_code := "is_empty" |}; {| op_id := 14; op_code := "not_empty" |} ];
     condition_groups :=
       [ {| cg_id := 1; cg_form_id := 1; cg_logic_op := "AND" |};
         {| cg_id := 2; cg_form_id := 1; cg_logic_op := "AND" |};
         {| cg_id := 99; cg_form_id := 1; cg_logic_op := "AND" |} ];
     conditions :=
       [ bare_condition 1 1 101 11;
         bare_condition 2 2 101 12;
         bare_condition 3 99 201 14 ];
     step_transitions :=
       [ {| t_id := 1; t_form_id := 1; t_source_step_id := 10; t_target_step_id := 20;
            t_condition_group_id := 1; t_priority := 10 |};
         {| t_id := 2; t_form_id := 1; t_source_step_id := 10; t_target_step_id := 30;
            t_condition_group_id := 2; t_priority := 20 |};
         {| t_id := 3; t_form_id := 1; t_source_step_id := 20; t_target_step_id := 30;
            t_condition_group_id := 99; t_priority := 100 |} ];
     instance_statuses :=
       [ {| st_id := 1; st_code := "draft" |}; {| st_id := 2; st_code := "in_progress" |};
         {| st_id := 3; st_code := "paused" |}; {| st_id := 4; st_code := "completed" |};
         {| st_id := 5; st_code := "cancelled" |} ];
     form_instances := [];
     instance_steps := [];
     instance_answers := [] |}.

Definition set_condition_groups (rows : list condition_group_row) (db : database)
    : database :=
  {| forms := forms db; form_steps := form_steps db;
     field_data_types := field_data_types db; step_fields := step_fields db;
     compare_ops := compare_ops db; condition_groups := rows;
     conditions := conditions db; step_transitions := step_transitions db;
     instance_statuses := instance_statuses db;
     form_instances := form_instances db;
     instance_steps := instance_steps db;
     instance_answers := instance_answers db |}.

Definition set_step_transitions (rows : list step_transition_row) (db : database)
    : database :=
  {| forms := forms db; form_steps := form_steps db;
     field_data_types := field_data_types db; step_fields := step_fields db;
     compare_ops := compare_ops db; condition_groups := condition_groups db;
     conditions := conditions db; step_transitions := rows;
     instance_statuses := instance_statuses db;
     form_instances := form_instances db;
     instance_steps := instance_steps db;
     instance_answers := instance_answers db |}.

(** The demo form after [create_step_route] has added, on the terminal step
    30, a route back to step 10 with no condition (group 100, transition 4). *)
Definition loop_db : database :=
  set_step_transitions
    (step_transitions demo_db ++
       [ {| t_id := 4; t_form_id := 1; t_source_step_id := 30; t_target_step_id := 10;
            t_condition_group_id := 100; t_priority := 100 |} ])
    (set_condition_groups
       (condition_groups demo_db ++
          [ {| cg_id := 100; cg_form_id := 1; cg_logic_op := "AND" |} ])
       demo_db).

(** The demo form with an instance (user 7) that answered [is_dev] on step 10
    and now stands on step 20, [fav_lang] not answered. *)
Definition running_db : database :=
  set_form_instances
    [ {| fi_id := 1; fi_form_id := 1; fi_user_id := 7; fi_status_id := 2;
         fi_current_step_id := Some 20; fi_updated_at := 1000 |} ]
    (set_instance_steps
       [ {| is_id := 1; is_instance_id := 1; is_step_id := 10;
            is_status_code := "completed"; is_entered_at := 1000;
            is_left_at := Some 1010 |};
         {| is_id := 2; is_instance_id := 1; is_step_id := 20;
            is_status_code := "entered"; is_entered_at := 1010;
            is_left_at := None |} ]
       (set_instance_answers
          [ {| a_id := 1; a_instance_id := 1; a_field_id := 101;
               a_value_text := PNone; a_value_num := PNone;
               a_value_bool := PBool true; a_value_date := PNone;
               a_updated_at := 1010 |} ]
          demo_db)).

(** The state of the running instance before a request. *)
Definition running_world : world :=
  {| w_db := running_db; form_sessions := ∅ |}.

(** Two routes out of step 10 with the default priority 100 and no
    condition, to 20 (transition 1) and to 30 (transition 2), which the
    engine scans in the order 2, 1. *)
Definition tie_db : database :=
  set_step_transitions
    [ {| t_id := 2; t_form_id := 1; t_source_step_id := 10; t_target_step_id := 30;
         t_condition_group_id := 101; t_priority := 100 |};
      {| t_id := 1; t_form_id := 1; t_source_step_id := 10; t_target_step_id := 20;
         t_condition_group_id := 100; t_priority := 100 |} ]
    (set_condition_groups
       [ {| cg_id := 100; cg_form_id := 1; cg_logic_op := "AND" |};
         {| cg_id := 101; cg_form_id := 1; cg_logic_op := "AND" |} ]
       demo_db).

Definition set_instance_statuses (rows : list instance_status_row) (db : database)
    : database :=
  {| forms := forms db; form_steps := form_steps db;
     field_data_types := field_data_types db; step_fields := step_fields db;
     compare_ops := compare_ops db; condition_groups := condition_groups db;
     conditions := conditions db; step_transitions := step_transitions db;
     instance_statuses := rows;
     form_instances := form_instances db;
     instance_steps := instance_steps db;
     instance_answers := instance_answers db |}.

(** The running instance once it has answered [fav_lang] on step 20 and
    moved to the terminal step 30. *)
Definition review_db : database :=
  set_form_instances
    [ {| fi_id := 1; fi_form_id := 1; fi_user_id := 7; fi_status_id := 2;
         fi_current_step_id := Some 30; fi_updated_at := 1020 |} ]
    (set_instance_steps
       [ {| is_id := 1; is_instance_id := 1; is_step_id := 10;
            is_status_code := "completed"; is_entered_at := 1000;
            is_left_at := Some 1010 |};
         {| is_id := 2; is_instance_id := 1; is_step_id := 20;
            is_status_code := "completed"; is_entered_at := 1010;
            is_left_at := Some 1020 |};
         {| is_id := 3; is_instance_id := 1; is_step_id := 30;
            is_status_code := "entered"; is_entered_at := 1020;
            is_left_at := None |} ]
       (set_instance_answers
          [ {| a_id := 1; a_instance_id := 1; a_field_id := 101;
               a_value_text := PNone; a_value_num := PNone;
               a_value_bool := PBool true; a_value_date := PNone;
               a_updated_at := 1010 |};
            {| a_id := 2; a_instance_id := 1; a_field_id := 201;
               a_value_text := PStr "py"; a_value_num := PNone;
               a_value_bool := PNone; a_value_date := PNone;
               a_updated_at := 1020 |} ]
          demo_db)).

Definition review_world : world :=
  {| w_db := review_db; form_sessions := ∅ |}.

(** The same instance on a store whose table of statuses is empty. *)
Definition unseeded_world : world :=
  {| w_db := set_instance_statuses [] review_db; form_sessions := ∅ |}.

(** The store of two tied routes with its table of transitions scanned in
    the other order, 1 then 2. *)
Definition tie_db_by_id : database :=
  set_step_transitions (reverse (step_transitions tie_db)) tie_db.

End Demo.


(** * Properties *)

(** ** Atomic conditions *)

Section ConditionProperties.
Context `{PyFloat}.

Lemma except_Ok (b : bool) : except_ValueError_TypeError (Ok b) = Ok b.
Proof. reflexivity. Qed.

Lemma py_float_cases (v : pyval) :
  within_int64 v →
  (∃ x, py_float v = Ok x) ∨ py_float v = Raise ValueError
  ∨ py_float v = Raise TypeError.
Proof.
  destruct v as [ | b | z | x | s | t r]; simpl; intros Hv; eauto.
  - destruct (float_of_int64 (if b then 1 else 0)) as [x ->]; [destruct b; lia | eauto].
  - destruct (float_of_int64 z Hv) as [x ->]. eauto.
  - destruct (float_of_str s); eauto.
Qed.

Lemma check_condition_eq_total (actual expected : pyval) :
  within_int64 actual → within_int64 expected →
  ∃ b, check_condition_eq actual expected = Ok b.
Proof.
  intros Ha He. unfold check_condition_eq, check_eq.
  destruct (isinstance_bool expected); [eauto |].
  destruct (isinstance_int_float expected); [| eauto].
  destruct (py_float_cases actual Ha) as [[a ->] | [-> | ->]]; simpl; eauto.
  destruct (py_float_cases expected He) as [[e ->] | [-> | ->]]; simpl; eauto.
Qed.

(** The ['ne'] branch calls the function itself with ['eq']: that call is
    [check_condition_eq]. *)
Lemma check_condition_eq_unfold (actual expected : pyval) :
  check_condition actual "eq" expected = check_condition_eq actual expected.
Proof. reflexivity. Qed.

Lemma check_condition_ne_unfold (actual expected : pyval) :
  check_condition actual "ne" expected
  = negb <$> check_condition actual "eq" expected.
Proof.
  rewrite check_condition_eq_unfold. unfold check_condition. simpl.
  unfold check_condition_eq.
  destruct (check_eq actual expected) as [b | e]; simpl; [reflexivity |].
  destruct e; reflexivity.
Qed.

(** An [OverflowError] is not caught: outside the 64-bit range the
    evaluation can raise. *)
Lemma check_condition_overflow (actual : pyval) (z : Z) :
  (∃ x, py_float actual = Ok x) → float_of_int z = None →
  check_condition actual "eq" (PInt z) = Raise OverflowError.
Proof.
  intros [x Hx] Hz. unfold check_condition, check_eq. simpl.
  rewrite Hx. simpl. rewrite Hz. reflexivity.
Qed.

(** On values whose integers fit 64 bits every exception of the body is
    one of the two the handler catches. *)
Lemma check_condition_returns (actual : pyval) (op_code : string) (expected : pyval) :
  within_int64 actual → within_int64 expected →
  ∃ b, check_condition actual op_code expected = Ok b.
Proof.
  intros Ha He. unfold check_condition.
  repeat (match goal with
          | |- context [String.eqb ?a ?b] => destruct (String.eqb a b)
          end; [rewrite ?except_Ok; eauto |]); [ | | eauto].
  - apply (check_condition_eq_total _ _ Ha He).
  - destruct (check_condition_eq_total _ _ Ha He) as [b ->]. simpl. eauto.
Qed.

(** A missing answer against a boolean operand and against a number: the
    first is compared as [False], the second cannot be converted. *)
Lemma check_condition_eq_bool_None (b : bool) :
  check_condition PNone "eq" (PBool b) = Ok (negb b).
Proof. by destruct b. Qed.

Lemma check_condition_eq_int_None (z : Z) :
  check_condition PNone "eq" (PInt z) = Ok false.
Proof. reflexivity. Qed.

(** C7 (amended). Evaluating an atomic condition is total on the values of
    the store: for every operator code and all actual and expected values
    whose integers fit 64 bits it returns a boolean and raises nothing.
    When the operand is a number and the actual value cannot be converted
    to a float, ['eq'] is false and ['ne'], its negation, is true. *)
Theorem check_condition_total (actual : pyval) (op_code : string) (expected : pyval) :
  within_int64 actual → within_int64 expected →
  (∃ b, check_condition actual op_code expected = Ok b)
  ∧ (∀ e, isinstance_bool expected = false →
          isinstance_int_float expected = true →
          py_float actual = Raise e →
          check_condition actual "eq" expected = Ok false
          ∧ check_condition actual "ne" expected = Ok true).
Proof.
  intros Ha He. split; [by apply check_condition_returns |].
  intros e Hb Hn Hraise.
  assert (Heq : check_condition actual "eq" expected = Ok false).
  { rewrite check_condition_eq_unfold. unfold check_condition_eq, check_eq.
    rewrite Hb, Hn, Hraise. simpl.
    destruct (py_float_cases actual Ha) as [[x Hx] | [Hx | Hx]];
      rewrite Hx in Hraise; inversion Hraise; reflexivity. }
  split; [exact Heq |].
  rewrite check_condition_ne_unfold, Heq. reflexivity.
Qed.

Lemma not_elem_of_implemented_ops (op_code : string) :
  forallb (λ op, negb (String.eqb op_code op)) implemented_ops = true →
  op_code ∉ implemented_ops.
Proof.
  intros Hall Hin. rewrite forallb_forall in Hall.
  apply list_elem_of_In, Hall in Hin. by rewrite String.eqb_refl in Hin.
Qed.

(** C10. An operator code with no branch, such as the seeded [gt], [gte],
    [lt], [lte], [in], [not_in], [like] and [ilike], evaluates to false
    whatever the actual and expected values. *)
Theorem check_condition_unimplemented (op_code : string) (actual expected : pyval) :
  op_code ∉ implemented_ops →
  check_condition actual op_code expected = Ok false.
Proof.
  intros Hop. unfold check_condition.
  repeat (match goal with
          | |- context [String.eqb ?a ?b] =>
              destruct (String.eqb_spec a b) as [-> | _]
          end; [exfalso; apply Hop; unfold implemented_ops; set_solver |]).
  reflexivity.
Qed.

End ConditionProperties.

(** ** Queries *)

Section QueryProperties.
Context {A : Type}.
Implicit Types (p : A → bool) (key : A → Z) (l : list A).

Lemma elem_of_where p l x : x ∈ where_ p l ↔ x ∈ l ∧ p x = true.
Proof. unfold where_. rewrite !list_elem_of_In. apply filter_In. Qed.

Lemma where_nil p l : (∀ x, x ∈ l → p x = false) → where_ p l = [].
Proof.
  induction l as [| y l IH]; intros Hp; [reflexivity |]. simpl.
  rewrite (Hp y) by left. apply IH. intros x Hx. apply Hp. by right.
Qed.

Lemma insert_by_perm key x l : insert_by key x l ≡ₚ x :: l.
Proof.
  induction l as [| y l IH]; simpl; [reflexivity |].
  destruct (key x <=? key y); [reflexivity |].
  rewrite IH. apply Permutation_swap.
Qed.

Lemma order_by_perm key l : order_by key l ≡ₚ l.
Proof.
  induction l as [| x l IH]; simpl; [reflexivity |].
  unfold order_by in *. simpl. rewrite insert_by_perm. by f_equiv.
Qed.

Lemma elem_of_order_by key l x : x ∈ order_by key l ↔ x ∈ l.
Proof. by rewrite order_by_perm. Qed.

Lemma order_by_nil_inv key l : order_by key l = [] → l = [].
Proof.
  intros Hnil. apply Permutation_nil_r. rewrite <- Hnil.
  symmetry. apply order_by_perm.
Qed.

(** Inserting into a list sorted for a relation that refines the order of
    the keys keeps it sorted, provided the new row may stand before the rows
    with a key not smaller and after the rows with a smaller key. *)
Lemma insert_by_sorted (R : relation A) key x l :
  (∀ a b, R a b → key a ≤ key b) →
  StronglySorted R l →
  (∀ y, y ∈ l → key x ≤ key y → R x y) →
  (∀ y, y ∈ l → key y < key x → R y x) →
  StronglySorted R (insert_by key x l).
Proof.
  intros Hkey Hsorted. induction Hsorted as [| y l Hl IH Hy]; intros Hafter Hbefore.
  - simpl. repeat constructor.
  - simpl. destruct (Z.leb_spec (key x) (key y)) as [Hle | Hlt].
    + constructor; [by constructor |].
      apply Forall_forall. intros z Hz. apply Hafter; [done |].
      apply elem_of_cons in Hz as [-> | Hz]; [done |].
      rewrite Forall_forall in Hy. specialize (Hkey _ _ (Hy z Hz)). lia.
    + constructor.
      * apply IH; intros z Hz ?; [apply Hafter | apply Hbefore]; by try right.
      * apply Forall_forall. intros z Hz.
        rewrite insert_by_perm in Hz.
        apply elem_of_cons in Hz as [-> | Hz].
        -- apply Hbefore; [left | done].
        -- rewrite Forall_forall in Hy. by apply Hy.
Qed.

(** [ORDER BY key] returns the rows in ascending order of the key. *)
Lemma order_by_sorted key l :
  StronglySorted (λ a b, key a ≤ key b) (order_by key l).
Proof.
  induction l as [| x l IH]; [constructor |].
  change (order_by key (x :: l)) with (insert_by key x (order_by key l)).
  apply insert_by_sorted; auto; intros; lia.
Qed.


Lemma where_sorted (R : relation A) p l :
  StronglySorted R l → StronglySorted R (where_ p l).
Proof.
  induction 1 as [| x l Hl IH Hx]; [constructor |]. simpl.
  destruct (p x); [| done]. constructor; [done |].
  rewrite Forall_forall in *. intros y Hy. apply Hx.
  by apply elem_of_where in Hy as [? _].
Qed.

End QueryProperties.

(** ** Groups, forward steps and the next step *)

Section TransitionProperties.
Context `{PyFloat}.

Lemma fetch_conditions_group (db : database) (group_id : Z) r :
  r ∈ fetch_conditions db group_id →
  r.1 ∈ conditions db ∧ c_group_id r.1 = group_id.
Proof.
  unfold fetch_conditions. rewrite elem_of_order_by, elem_of_where.
  intros [Hr Hg]. apply Z.eqb_eq in Hg. split; [| done].
  apply list_elem_of_bind in Hr as (c & Hr & Hc).
  apply list_elem_of_bind in Hr as (op & Hr & _).
  apply list_elem_of_singleton in Hr as ->. done.
Qed.

Lemma fetch_conditions_none (db : database) (group_id : Z) :
  (∀ c, c ∈ conditions db → c_group_id c ≠ group_id) →
  fetch_conditions db group_id = [].
Proof.
  intros Hnone. destruct (fetch_conditions db group_id) as [| r l] eqn:Hrows; [done |].
  destruct (fetch_conditions_group db group_id r) as [Hc Hg].
  { rewrite Hrows. left. }
  destruct (Hnone _ Hc Hg).
Qed.

(** C6. A group that exists and has no condition evaluates to true, whatever
    its logic operator and whatever the answers. *)
Theorem evaluate_group_empty (db : database) (group_id : Z)
    (all_answers : gmap Z pyval) :
  is_Some (fetch_group db group_id) →
  (∀ c, c ∈ conditions db → c_group_id c ≠ group_id) →
  evaluate_group db group_id all_answers = Ok true.
Proof.
  intros [group_row Hg] Hnone. unfold evaluate_group.
  rewrite Hg, (fetch_conditions_none _ _ Hnone). reflexivity.
Qed.






(** [_get_valid_forward_steps] never reads [form_steps]: the flag
    [is_terminal] plays no part in it. *)
Lemma get_valid_forward_steps_ignores_steps (db : database)
    (steps : list form_step_row) (instance_id source_step_id : Z) :
  get_valid_forward_steps (set_form_steps steps db) instance_id source_step_id
  = get_valid_forward_steps db instance_id source_step_id.
Proof.
  assert (Hloop : ∀ all_answers l,
            allowed_targets (set_form_steps steps db) all_answers l
            = allowed_targets db all_answers l).
  { intros all_answers. induction l as [| t l IH]; [done |].
    simpl. rewrite IH. reflexivity. }
  unfold get_valid_forward_steps.
  change (fetch_transitions (set_form_steps steps db) source_step_id)
    with (fetch_transitions db source_step_id).
  change (get_all_answers (set_form_steps steps db) instance_id)
    with (get_all_answers db instance_id).
  by rewrite Hloop.
Qed.

(** C2 (amended). On a terminal step [_determine_next_step] returns no step
    before it looks at any transition, guard or answer; the forward steps
    themselves are computed without regard to the flag. *)
Theorem terminal_step_has_no_next (db : database) (instance_id step_id : Z)
    (step : form_step_row) :
  fetch_step db step_id = Some step → fs_is_terminal step = true →
  determine_next_step db instance_id step_id = Ok None
  ∧ ∀ steps,
      get_valid_forward_steps (set_form_steps steps db) instance_id step_id
      = get_valid_forward_steps db instance_id step_id.
Proof.
  intros Hstep Hterm. split.
  - unfold determine_next_step. rewrite Hstep, Hterm. reflexivity.
  - intros steps. apply get_valid_forward_steps_ignores_steps.
Qed.

(** C3 (amended). For a step that exists, the next step is the first of the
    forward steps, or none when there is none, if the step is not terminal;
    it is none if the step is terminal. *)
Theorem determine_next_step_head (db : database) (instance_id step_id : Z)
    (step : form_step_row) :
  fetch_step db step_id = Some step →
  determine_next_step db instance_id step_id
  = if fs_is_terminal step then Ok None
    else head <$> get_valid_forward_steps db instance_id step_id.
Proof.
  intros Hstep. unfold determine_next_step. rewrite Hstep.
  destruct (fs_is_terminal step); [done |].
  by destruct (get_valid_forward_steps db instance_id step_id).
Qed.

End TransitionProperties.

(** ** Evaluation on the values of the store *)

Section StoreProperties.
Context `{PyFloat}.

Lemma first_not_None_within (vs : list pyval) :
  Forall within_int64 vs → within_int64 (first_not_None vs).
Proof.
  induction 1 as [| v vs Hv _ IH]; simpl; [done |]. by destruct (is_None v).
Qed.

Lemma get_all_answers_within (db : database) (instance_id f : Z) :
  Forall answer_row_within (instance_answers db) →
  within_int64 (dict_get (get_all_answers db instance_id) f).
Proof.
  intros Hdb. unfold dict_get, get_all_answers.
  set (rows := where_ _ _).
  assert (Hrows : Forall answer_row_within rows).
  { apply Forall_forall. intros a Ha. apply elem_of_where in Ha as [Ha _].
    rewrite Forall_forall in Hdb. by apply Hdb. }
  assert (Hgen : ∀ m : gmap Z pyval,
            map_Forall (λ _ v, within_int64 v) m →
            map_Forall (λ _ v, within_int64 v)
              (foldl (λ answers_map row,
                        <[a_field_id row := answer_value row]> answers_map) m rows)).
  { clear Hdb. induction Hrows as [| a rows Ha _ IH]; intros m Hm; [done |].
    simpl. apply IH. apply map_Forall_insert_2; [| done].
    by apply first_not_None_within. }
  specialize (Hgen ∅ (map_Forall_empty _)).
  destruct (_ !! f) as [v |] eqn:Hv; simpl; [| done].
  by apply (Hgen f v).
Qed.

(** On such a store a group always evaluates to a boolean. *)
Lemma evaluate_group_total (db : database) (group_id : Z) (instance_id : Z) :
  store_within_int64 db →
  ∃ b, evaluate_group db group_id (get_all_answers db instance_id) = Ok b.
Proof.
  intros [Hans Hcond]. unfold evaluate_group.
  destruct (fetch_group db group_id) as [group_row |]; [| eauto].
  assert (Hrows : Forall (λ r : condition_row * string, condition_row_within r.1)
                    (fetch_conditions db group_id)).
  { apply Forall_forall. intros r Hr.
    apply fetch_conditions_group in Hr as [Hr _].
    rewrite Forall_forall in Hcond. by apply Hcond. }
  destruct (fetch_conditions db group_id) as [| r0 rows0] eqn:Hfetch; [eauto |].
  revert Hrows. generalize (r0 :: rows0). intros rows Hrows.
  assert (Hmap : ∃ results,
            mapM (λ r : condition_row * string,
                    check_condition
                      (dict_get (get_all_answers db instance_id) (c_field_id r.1))
                      r.2 (expected_of r.1)) rows = Ok results).
  { induction Hrows as [| r rows Hr _ [results IH]]; [by exists [] |].
    destruct (check_condition_returns
                (dict_get (get_all_answers db instance_id) (c_field_id r.1))
                r.2 (expected_of r.1)) as [b Hb].
    - by apply get_all_answers_within.
    - by apply first_not_None_within.
    - exists (b :: results). simpl. rewrite Hb. simpl.
      change (mapM ?f rows) with (mapM f rows) in IH. by rewrite IH. }
  destruct Hmap as [results ->]. simpl. eauto.
Qed.

(** The forward steps are the targets of the eligible transitions among
    those fetched, in the order in which they were fetched. *)
Lemma get_valid_forward_steps_eligible (db : database)
    (instance_id source_step_id : Z) :
  store_within_int64 db →
  get_valid_forward_steps db instance_id source_step_id
  = Ok (map t_target_step_id
          (where_ (eligible db (get_all_answers db instance_id))
             (fetch_transitions db source_step_id))).
Proof.
  intros Hdb. unfold get_valid_forward_steps.
  assert (Hloop : ∀ l,
            allowed_targets db (get_all_answers db instance_id) l
            = Ok (map t_target_step_id
                    (where_ (eligible db (get_all_answers db instance_id)) l))).
  { induction l as [| t l IH]; [done |]. simpl. rewrite IH. unfold eligible.
    destruct (evaluate_group_total db (t_condition_group_id t) instance_id Hdb)
      as [b ->].
    by destruct b. }
  rewrite Hloop. by destruct (fetch_transitions db source_step_id).
Qed.

(** The transitions are fetched in ascending order of priority. *)
Lemma fetch_transitions_by_priority (db : database) (source_step_id : Z) :
  StronglySorted (λ a b, t_priority a ≤ t_priority b)
    (fetch_transitions db source_step_id).
Proof. apply order_by_sorted. Qed.



(** The current step is tested by truth value: an id of 0 counts as no
    current step. *)
Lemma validate_navigation_zero (db : database) (instance_id target_step_id : Z) :
  validate_navigation db instance_id (Some 0) target_step_id
  = validate_navigation db instance_id None target_step_id.
Proof. reflexivity. Qed.


End StoreProperties.

(** ** Saving answers *)

Section SaveProperties.
Context `{PyFloat}.







(** *** What is written for the recognized pairs *)

Lemma upsert_answer_stored (now instance_id field_id : Z) (vals : answer_values)
    (db : database) :
  ∃ r, r ∈ instance_answers (upsert_answer now instance_id field_id vals db)
       ∧ stored now instance_id field_id vals r.
Proof.
  unfold upsert_answer.
  destruct (existsb _ (instance_answers db)) eqn:Hhit; simpl.
  - apply existsb_exists in Hhit as (r0 & Hr0 & Hhit).
    eexists. split.
    + apply list_elem_of_fmap. exists r0. split; [reflexivity |].
      by apply list_elem_of_In.
    + rewrite Hhit. by repeat split.
  - eexists. split; [apply elem_of_app; right; left |]. by repeat split.
Qed.

Lemma upsert_answer_other (now instance_id field_id : Z) (vals : answer_values)
    (db : database) (r : instance_answer_row) :
  a_field_id r ≠ field_id →
  r ∈ instance_answers db →
  r ∈ instance_answers (upsert_answer now instance_id field_id vals db).
Proof.
  intros Hne Hr. unfold upsert_answer.
  destruct (existsb _ (instance_answers db)); simpl.
  - apply list_elem_of_fmap. exists r. split; [| done].
    destruct (Z.eqb_spec (a_field_id r) field_id) as [? | _]; [done |].
    by rewrite andb_false_r.
  - apply elem_of_app. by left.
Qed.

(** The pairs that resolve to other fields leave the rows of a field. *)
Lemma save_loop_other (now instance_id fid : Z) (field_map : gmap string (Z * string))
    (answers : list Answer) (w w' : world) (r : instance_answer_row) :
  save_loop now instance_id field_map answers w = (Ok (), w') →
  (∀ ans dt, ans ∈ answers → field_map !! field_code ans ≠ Some (fid, dt)) →
  a_field_id r = fid →
  r ∈ instance_answers (w_db w) →
  r ∈ instance_answers (w_db w').
Proof.
  revert w. induction answers as [| ans rest IH]; intros w Hrun Hother Hfid Hr.
  - by injection Hrun as <-.
  - simpl in Hrun.
    assert (Hrest : ∀ ans' dt, ans' ∈ rest → field_map !! field_code ans' ≠ Some (fid, dt)).
    { intros ans' dt Hin. apply Hother. by right. }
    destruct (field_map !! field_code ans) as [[field_id data_type] |] eqn:Hmap;
      [| by apply (IH w)].
    unfold mbind, M_bind, lift, execute in Hrun.
    destruct (coerce data_type (value ans)) as [vals | e]; [| done].
    destruct (bind_param (v_date vals)) as [bound | e]; [| done].
    apply (IH _ Hrun Hrest Hfid). simpl.
    apply upsert_answer_other; [| done].
    intros Heq. apply (Hother ans data_type); [left |]. by rewrite Hmap, <- Heq, Hfid.
Qed.

Lemma save_loop_stored (now instance_id fid : Z) (dt : string)
    (field_map : gmap string (Z * string)) (pre post : list Answer) (ans : Answer)
    (vals : answer_values) (w w' : world) :
  save_loop now instance_id field_map (pre ++ ans :: post) w = (Ok (), w') →
  field_map !! field_code ans = Some (fid, dt) →
  (∀ ans' dt', ans' ∈ post → field_map !! field_code ans' ≠ Some (fid, dt')) →
  coerce dt (value ans) = Ok vals →
  ∃ r, r ∈ instance_answers (w_db w') ∧ stored now instance_id fid vals r.
Proof.
  intros Hrun Hmap Hpost Hvals. revert w Hrun.
  induction pre as [| a pre IH]; intros w Hrun; simpl in Hrun.
  - rewrite Hmap in Hrun. unfold mbind, M_bind, lift, execute in Hrun.
    rewrite Hvals in Hrun.
    destruct (bind_param (v_date vals)) as [bound | e]; [| done].
    destruct (upsert_answer_stored now instance_id fid vals (w_db w))
      as (r & Hr & Hstored).
    exists r. split; [| done].
    apply (save_loop_other _ _ fid _ _ _ _ _ Hrun Hpost); [apply Hstored | done].
  - destruct (field_map !! field_code a) as [[field_id data_type] |];
      [| by apply (IH w)].
    unfold mbind, M_bind, lift, execute in Hrun.
    destruct (coerce data_type (value a)) as [vals' | e]; [| done].
    destruct (bind_param (v_date vals')) as [bound | e]; [| done].
    by apply (IH _ Hrun).
Qed.

(** After a successful [_save_answers] the store holds, for each field a
    pair of the request resolves to, the coerced value of the last such
    pair. *)
Lemma save_answers_persists (now instance_id step_id fid : Z) (dt : string)
    (pre post : list Answer) (ans : Answer) (vals : answer_values) (w w' : world) :
  let field_map := field_map_of (fetch_fields_info (w_db w) step_id) in
  save_answers now instance_id step_id (pre ++ ans :: post) w = (Ok (), w') →
  field_map !! field_code ans = Some (fid, dt) →
  (∀ ans' dt', ans' ∈ post → field_map !! field_code ans' ≠ Some (fid, dt')) →
  coerce dt (value ans) = Ok vals →
  ∃ r, r ∈ instance_answers (w_db w') ∧ stored now instance_id fid vals r.
Proof.
  intros field_map Hrun Hmap Hpost Hvals.
  unfold save_answers, mbind, M_bind, query, transaction in Hrun. simpl in Hrun.
  fold field_map in Hrun.
  destruct (save_loop now instance_id field_map (pre ++ ans :: post) w)
    as [[[] | e] w1] eqn:Hloop; [| done].
  injection Hrun as <-.
  by apply (save_loop_stored _ _ _ _ _ _ _ _ _ _ _ Hloop Hmap Hpost Hvals).
Qed.

End SaveProperties.

(** ** Submitting a step *)

Section SubmitProperties.
Context `{PyFloat}.

(** The forward steps depend on the transitions, the groups, the
    conditions, the operators and the answers only. *)
Lemma get_valid_forward_steps_ext (db db' : database) (instance_id source_step_id : Z) :
  step_transitions db' = step_transitions db →
  condition_groups db' = condition_groups db →
  conditions db' = conditions db →
  compare_ops db' = compare_ops db →
  instance_answers db' = instance_answers db →
  get_valid_forward_steps db' instance_id source_step_id
  = get_valid_forward_steps db instance_id source_step_id.
Proof.
  intros Ht Hg Hc Ho Ha.
  assert (Hgroup : ∀ group_id all_answers,
            evaluate_group db' group_id all_answers
            = evaluate_group db group_id all_answers).
  { intros. unfold evaluate_group, fetch_group, fetch_conditions.
    by rewrite Hg, Hc, Ho. }
  assert (Hloop : ∀ all_answers l,
            allowed_targets db' all_answers l = allowed_targets db all_answers l).
  { intros all_answers. induction l as [| t l IH]; [done |].
    simpl. by rewrite IH, Hgroup. }
  unfold get_valid_forward_steps, fetch_transitions, get_all_answers.
  by rewrite Ht, Ha, Hloop.
Qed.

Lemma set_instance_answers_cong (rows rows' : list instance_answer_row)
    (db db' : database) :
  set_instance_answers rows db' = db →
  set_instance_answers rows' db' = set_instance_answers rows' db.
Proof. by intros <-. Qed.

(** [_save_answers] writes to [instance_answers] only. *)
Lemma save_loop_frame (now instance_id : Z) (field_map : gmap string (Z * string))
    (answers : list Answer) (w : world) :
  let w' := (save_loop now instance_id field_map answers w).2 in
  set_instance_answers (instance_answers (w_db w)) (w_db w') = w_db w
  ∧ form_sessions w' = form_sessions w.
Proof.
  revert w. induction answers as [| ans rest IH]; intros w; simpl.
  - by destruct w as [[] ?].
  - destruct (field_map !! field_code ans) as [[field_id data_type] |]; [| apply IH].
    unfold mbind, M_bind, lift, execute.
    destruct (coerce data_type (value ans)) as [vals | e]; [| by destruct w as [[] ?]].
    destruct (bind_param (v_date vals)) as [bound | e]; [| by destruct w as [[] ?]].
    match goal with
    | |- context [save_loop _ _ _ _ ?w1] => destruct (IH w1) as [Hdb Hs]
    end.
    simpl in *. split; [| done].
    rewrite (set_instance_answers_cong _ _ _ _ Hdb).
    unfold upsert_answer. destruct (existsb _ _); by destruct w as [[] ?].
Qed.

Lemma save_answers_frame (now instance_id step_id : Z) (answers : list Answer)
    (w : world) :
  let w' := (save_answers now instance_id step_id answers w).2 in
  set_instance_answers (instance_answers (w_db w)) (w_db w') = w_db w
  ∧ form_sessions w' = form_sessions w.
Proof.
  unfold save_answers, mbind, M_bind, query, transaction. simpl.
  match goal with
  | |- context [save_loop ?a ?b ?c ?d ?e] =>
      pose proof (save_loop_frame a b c d e) as Hframe;
      destruct (save_loop a b c d e) as [[[] | e'] w1]
  end; simpl in *; [done |].
  split; [by destruct w as [[] ?] | apply Hframe].
Qed.

(** Refreshing the session cache leaves the store as it is. *)
Lemma sync_session_state_db (instance_id : Z) (w : world) :
  w_db (sync_session_state instance_id w).2 = w_db w.
Proof.
  unfold sync_session_state.
  destruct (fetch_instance _ _); [| done].
  destruct (fetch_form _ _); [| done].
  by destruct (get_navigation_summary _ _ _).
Qed.

Lemma fetch_instance_finished (now instance_id sid : Z) (db : database)
    (inst : form_instance_row) :
  fetch_instance db instance_id = Some inst →
  fetch_instance (finish_instance now instance_id sid db) instance_id
  = Some (finished now sid inst).
Proof.
  unfold fetch_instance, finish_instance. simpl.
  induction (form_instances db) as [| row rows IH]; [done |].
  unfold where_ in *. cbn [map List.filter].
  destruct (fi_id row =? instance_id) eqn:Hrow.
  - cbn. rewrite Hrow. by intros [= ->].
  - rewrite Hrow. exact IH.
Qed.

(** C4 (amended). The current step [s] of the instance is not terminal and,
    once the submitted answers are saved, no transition out of it is
    eligible. Then [submit_step] marks the ledger rows of [s] completed and
    logs no new entry, and it finishes the instance as it does on a terminal
    step: the current step becomes null and the status becomes
    [completed]. *)
Theorem submit_step_no_forward (now instance_id s sid : Z) (answers : list Answer)
    (w w1 : world) (inst : form_instance_row) (step : form_step_row) :
  fetch_instance (w_db w) instance_id = Some inst →
  fi_current_step_id inst = Some s → s ≠ 0 →
  fetch_step (w_db w) s = Some step → fs_is_terminal step = false →
  save_answers now instance_id s answers w = (Ok (), w1) →
  get_valid_forward_steps (w_db w1) instance_id s = Ok [] →
  get_instance_status_id (w_db w) "completed" = Ok sid →
  let w' := (submit_step now instance_id answers w).2 in
  fetch_instance (w_db w') instance_id = Some (finished now sid inst)
  ∧ fi_current_step_id (finished now sid inst) = None
  ∧ fi_status_id (finished now sid inst) = sid
  ∧ instance_steps (w_db w') = instance_steps (complete_step now instance_id s (w_db w))
  ∧ length (instance_steps (w_db w')) = length (instance_steps (w_db w)).
Proof.
  intros Hinst Hcur Hs Hstep Hterm Hsave Hfwd Hsid.
  pose proof (save_answers_frame now instance_id s answers w) as [Hframe _].
  rewrite Hsave in Hframe. simpl in Hframe.
  assert (Hdb : w_db (submit_step now instance_id answers w).2
                = finish_instance now instance_id sid
                    (complete_step now instance_id s (w_db w1))).
  { unfold submit_step. unfold mbind at 1, M_bind at 1, query at 1. simpl.
    rewrite Hinst. simpl. rewrite Hcur. simpl.
    destruct (Z.eqb_spec s 0) as [? | _]; [done |].
    unfold mbind at 1, M_bind at 1. rewrite Hsave.
    unfold mbind at 1, M_bind at 1, execute at 1.
    unfold mbind at 1, M_bind at 1, query at 1. simpl.
    assert (Hnext : determine_next_step
                      (complete_step now instance_id s (w_db w1)) instance_id s
                    = Ok None).
    { unfold determine_next_step.
      replace (fetch_step (complete_step now instance_id s (w_db w1)) s)
        with (fetch_step (w_db w) s)
        by (rewrite <- Hframe; reflexivity).
      rewrite Hstep, Hterm.
      rewrite (get_valid_forward_steps_ext (w_db w1)) by reflexivity.
      by rewrite Hfwd. }
    rewrite Hnext. simpl.
    unfold mbind at 1, M_bind at 1, query at 1. simpl.
    replace (get_instance_status_id (complete_step now instance_id s (w_db w1))
               "completed")
      with (get_instance_status_id (w_db w) "completed")
      by (rewrite <- Hframe; reflexivity).
    rewrite Hsid.
    unfold mbind at 1, M_bind at 1, execute at 1.
    unfold mbind at 1, M_bind at 1.
    match goal with
    | |- context [sync_session_state ?i ?w2] =>
        pose proof (sync_session_state_db i w2) as Hsync;
        destruct (sync_session_state i w2) as [[state | e] w3]
    end; simpl in *; by rewrite Hsync. }
  simpl. rewrite Hdb.
  assert (Hsteps : instance_steps (w_db w1) = instance_steps (w_db w))
    by (rewrite <- Hframe; reflexivity).
  assert (Hinsts : form_instances (w_db w1) = form_instances (w_db w))
    by (rewrite <- Hframe; reflexivity).
  repeat split.
  - apply fetch_instance_finished.
    unfold fetch_instance, complete_step. simpl. by rewrite Hinsts.
  - unfold finish_instance, complete_step. simpl. by rewrite Hsteps.
  - unfold finish_instance, complete_step. simpl.
    by rewrite length_map, Hsteps.
Qed.

End SubmitProperties.

(** * Further properties of the engine *)

(** ** Operators and groups *)

Section OperatorProperties.
Context `{PyFloat}.

(** X1. Each negative operator is the negation of its positive one, for
    every actual and expected value: ['ne'] of ['eq'], ['is_false'] of
    ['is_true'], ['not_empty'] of ['is_empty']. An exception that leaves
    ['eq'] leaves ['ne'] as well. *)
Theorem negative_operators_negate (actual expected : pyval) :
  check_condition actual "ne" expected
  = negb <$> check_condition actual "eq" expected
  ∧ check_condition actual "is_false" expected
    = negb <$> check_condition actual "is_true" expected
  ∧ check_condition actual "not_empty" expected
    = negb <$> check_condition actual "is_empty" expected.
Proof.
  split; [apply check_condition_ne_unfold |]. split.
  - unfold check_condition. simpl. by destruct (py_bool actual).
  - unfold check_condition. simpl.
    by destruct (is_None actual), (is_empty_str actual).
Qed.

Lemma mapM_result_Forall2 {A B : Type} (f : A → result B) (l : list A) (k : list B) :
  mapM f l = Ok k ↔ Forall2 (λ x y, f x = Ok y) l k.
Proof.
  revert k. induction l as [| x l IH]; intros k; simpl.
  - split.
    + intros [= <-]. constructor.
    + by inversion 1.
  - split.
    + destruct (f x) as [y | e] eqn:Hx; simpl; [| done].
      destruct (mapM f l) as [k' | e] eqn:Hl; simpl; [| done].
      intros [= <-]. constructor; [done |]. by apply IH.
    + inversion 1 as [| ? y ? k' Hx Hl]; subst.
      rewrite Hx. simpl. apply IH in Hl. rewrite Hl. done.
Qed.

Lemma forallb_id_Forall2 {A : Type} (P : A → bool → Prop) (l : list A)
    (results : list bool) :
  Forall2 P l results →
  (∀ x b, P x b → ∀ b', P x b' → b = b') →
  (py_all results = true ↔ ∀ x, x ∈ l → P x true)
  ∧ (py_any results = true ↔ ∃ x, x ∈ l ∧ P x true).
Proof.
  intros HF Hfun. induction HF as [| x b l results Hx _ [IHall IHany]]; simpl.
  - split; split; try done.
    + intros _ x Hx. by apply elem_of_nil in Hx.
    + intros (x & Hx & _). by apply elem_of_nil in Hx.
  - split.
    + rewrite andb_true_iff, IHall. split.
      * intros [-> Hl] y Hy. apply elem_of_cons in Hy as [-> | Hy]; auto.
      * intros Hall. split.
        -- eapply Hfun; [exact Hx |]. apply Hall. left.
        -- intros y Hy. apply Hall. by right.
    + rewrite orb_true_iff, IHany. split.
      * intros [-> | (y & Hy & Hp)]; [exists x; split; [left | done] |].
        exists y. split; [by right | done].
      * intros (y & Hy & Hp). apply elem_of_cons in Hy as [-> | Hy].
        -- left. by eapply Hfun.
        -- right. eauto.
Qed.

(** X2. On a store of 64-bit values, an existing group with at least one
    condition evaluates to a boolean; with the operator ['AND'] it is true
    exactly when every condition is, and with any other operator exactly
    when at least one is. *)
Theorem evaluate_group_logic (db : database) (group_id instance_id : Z)
    (group_row : condition_group_row) :
  store_within_int64 db →
  fetch_group db group_id = Some group_row →
  fetch_conditions db group_id ≠ [] →
  let all_answers := get_all_answers db instance_id in
  let holds (r : condition_row * string) :=
    check_condition (dict_get all_answers (c_field_id r.1)) r.2 (expected_of r.1)
    = Ok true in
  (∃ b, evaluate_group db group_id all_answers = Ok b)
  ∧ (cg_logic_op group_row = "AND" →
     (evaluate_group db group_id all_answers = Ok true
      ↔ ∀ r, r ∈ fetch_conditions db group_id → holds r))
  ∧ (cg_logic_op group_row ≠ "AND" →
     (evaluate_group db group_id all_answers = Ok true
      ↔ ∃ r, r ∈ fetch_conditions db group_id ∧ holds r)).
Proof.
  intros Hdb Hgroup Hrows all_answers holds.
  pose proof (evaluate_group_total db group_id instance_id Hdb) as [b Hb].
  fold all_answers in Hb. split; [eauto |].
  unfold evaluate_group in *. rewrite Hgroup in *.
  destruct (fetch_conditions db group_id) as [| r0 rows0] eqn:Hfetch; [done |].
  revert Hb. generalize (r0 :: rows0). intros rows Hb.
  destruct (mapM _ rows) as [results | e] eqn:Hmap; simpl in *; [| done].
  apply mapM_result_Forall2 in Hmap.
  destruct (forallb_id_Forall2 _ _ _ Hmap) as [Hall Hany].
  { intros x b1 Hb1 b2 Hb2. congruence. }
  subst holds. cbv beta.
  split; intros Hop.
  - rewrite Hop. simpl. rewrite <- Hall. split; [by intros [= ->] | by intros ->].
  - destruct (String.eqb_spec (cg_logic_op group_row) "AND") as [? | _]; [done |].
    rewrite <- Hany. split; [by intros [= ->] | by intros ->].
Qed.

End OperatorProperties.

(** ** Forward steps *)

Section ForwardProperties.
Context `{PyFloat}.

Lemma where_perm {A : Type} (p : A → bool) (l l' : list A) :
  l ≡ₚ l' → where_ p l ≡ₚ where_ p l'.
Proof.
  induction 1 as [| x l l' _ IH | x y l | l1 l2 l3 _ IH1 _ IH2]; simpl.
  - done.
  - destruct (p x); [by f_equiv | done].
  - destruct (p x), (p y); try done. apply Permutation_swap.
  - by etrans.
Qed.

Lemma where_where {A : Type} (p q : A → bool) (l : list A) :
  where_ p (where_ q l) = where_ (λ x, q x && p x) l.
Proof.
  induction l as [| x l IH]; [done |]. simpl.
  destruct (q x); simpl; [| done]. destruct (p x); by rewrite ?IH.
Qed.

(** The forward steps, their order and their multiplicity. *)
Lemma forward_steps_sorted_eligible (db : database) (instance_id source_step_id : Z) :
  store_within_int64 db →
  ∃ ts,
    get_valid_forward_steps db instance_id source_step_id
    = Ok (map t_target_step_id ts)
    ∧ StronglySorted (λ a b, t_priority a ≤ t_priority b) ts
    ∧ ts ≡ₚ where_ (eligible_from db instance_id source_step_id)
              (step_transitions db).
Proof.
  intros Hdb. eexists. split; [by apply get_valid_forward_steps_eligible |]. split.
  - apply where_sorted, fetch_transitions_by_priority.
  - unfold fetch_transitions. rewrite (where_perm _ _ _ (order_by_perm _ _)).
    by rewrite where_where.
Qed.

(** X3. On a store of 64-bit values the forward steps of a step are the
    targets of its eligible transitions, each transition counted once, in
    ascending order of priority. *)
Theorem forward_steps_are_eligible_targets (db : database)
    (instance_id source_step_id : Z) :
  store_within_int64 db →
  ∃ ts,
    get_valid_forward_steps db instance_id source_step_id
    = Ok (map t_target_step_id ts)
    ∧ StronglySorted (λ a b, t_priority a ≤ t_priority b) ts
    ∧ ts ≡ₚ where_ (eligible_from db instance_id source_step_id)
              (step_transitions db).
Proof. apply forward_steps_sorted_eligible. Qed.


(** X5. On a store of 64-bit values and for a step that is not terminal,
    the next step is the target of an eligible transition out of the step
    whose priority no eligible transition out of it undercuts, and there is
    no next step exactly when no transition out of the step is eligible. *)
Theorem determine_next_step_least_priority (db : database)
    (instance_id step_id : Z) (step : form_step_row) :
  store_within_int64 db →
  fetch_step db step_id = Some step → fs_is_terminal step = false →
  match determine_next_step db instance_id step_id with
  | Ok (Some next) =>
      ∃ t, t ∈ step_transitions db
           ∧ eligible_from db instance_id step_id t = true
           ∧ t_target_step_id t = next
           ∧ ∀ t', t' ∈ step_transitions db →
                   eligible_from db instance_id step_id t' = true →
                   t_priority t ≤ t_priority t'
  | Ok None =>
      ∀ t, t ∈ step_transitions db → eligible_from db instance_id step_id t = false
  | Raise _ => False
  end.
Proof.
  intros Hdb Hstep Hterm.
  destruct (forward_steps_sorted_eligible db instance_id step_id Hdb)
    as (ts & Hfwd & Hsorted & Hperm).
  unfold determine_next_step. rewrite Hstep, Hterm, Hfwd. simpl.
  destruct ts as [| t ts]; simpl.
  - intros t Ht. destruct (eligible_from db instance_id step_id t) eqn:Hel; [| done].
    assert (Hin : t ∈ where_ (eligible_from db instance_id step_id) (step_transitions db))
      by by apply elem_of_where.
    rewrite <- Hperm in Hin. by apply elem_of_nil in Hin.
  - assert (Hin : t ∈ where_ (eligible_from db instance_id step_id) (step_transitions db)).
    { rewrite <- Hperm. left. }
    apply elem_of_where in Hin as [Hin Hel].
    exists t. repeat split; try done.
    intros t' Hin' Hel'.
    assert (Hin'' : t' ∈ t :: ts).
    { rewrite Hperm. by apply elem_of_where. }
    apply StronglySorted_cons in Hsorted as [Hfirst _].
    apply elem_of_cons in Hin'' as [-> | Hin'']; [lia |].
    rewrite Forall_forall in Hfirst. by apply Hfirst.
Qed.

End ForwardProperties.

(** ** The routes query *)

Section RouteProperties.
Context `{PyFloat}.

Lemma order_by_stable_le {A : Type} (key tie : A → Z) (l : list A) :
  StronglySorted (λ a b, tie a ≤ tie b) l →
  StronglySorted (λ a b, key a < key b ∨ (key a = key b ∧ tie a ≤ tie b))
    (order_by key l).
Proof.
  induction 1 as [| x l Hl IH Hx]; [constructor |].
  change (order_by key (x :: l)) with (insert_by key x (order_by key l)).
  rewrite Forall_forall in Hx.
  apply insert_by_sorted; [| exact IH | |].
  - intros a b [? | [? _]]; lia.
  - intros y Hy Hle. apply elem_of_order_by in Hy. specialize (Hx y Hy). lia.
  - intros y _ Hlt. by left.
Qed.

(** The rows behind [fetch_route_ids], in its order. *)
Lemma route_rows_sorted (db : database) (form_id step_id : Z) :
  StronglySorted
    (λ a b, t_priority a < t_priority b
            ∨ (t_priority a = t_priority b ∧ t_id a ≤ t_id b))
    (order_by t_priority
       (order_by t_id
          (where_ (λ t, (t_form_id t =? form_id) && (t_source_step_id t =? step_id))
             (step_transitions db)))).
Proof. apply order_by_stable_le, order_by_sorted. Qed.

(** X6. The ids [_fetch_routes_for_step] reads are those of the transitions
    of the form out of the step, in ascending order of priority and, among
    equal priorities, of id; with ids that identify the rows, this order
    does not depend on the order in which the table is scanned. *)
Theorem fetch_route_ids_order (db db' : database) (form_id step_id : Z) :
  (∀ a b, a ∈ step_transitions db → b ∈ step_transitions db →
          t_id a = t_id b → a = b) →
  step_transitions db' ≡ₚ step_transitions db →
  (∃ ts,
     fetch_route_ids db form_id step_id = map t_id ts
     ∧ ts ≡ₚ where_ (λ t, (t_form_id t =? form_id) && (t_source_step_id t =? step_id))
               (step_transitions db)
     ∧ StronglySorted
         (λ a b, t_priority a < t_priority b
                 ∨ (t_priority a = t_priority b ∧ t_id a ≤ t_id b)) ts)
  ∧ fetch_route_ids db' form_id step_id = fetch_route_ids db form_id step_id.
Proof.
  intros Hids Hperm. split.
  - eexists. split; [reflexivity |]. split; [| apply route_rows_sorted].
    by rewrite !order_by_perm.
  - unfold fetch_route_ids. f_equal.
    apply (StronglySorted_unique_strong
             (λ a b, t_priority a < t_priority b
                     ∨ (t_priority a = t_priority b ∧ t_id a ≤ t_id b)));
      [| apply route_rows_sorted | apply route_rows_sorted |].
    + intros a b Ha Hb Hab Hba.
      rewrite !elem_of_order_by in Ha, Hb.
      apply elem_of_where in Ha as [Ha _]. apply elem_of_where in Hb as [Hb _].
      rewrite Hperm in Ha. apply Hids; [done | done | lia].
    + rewrite !order_by_perm. by apply where_perm.
Qed.

End RouteProperties.

(** ** The answer store *)

Section AnswerProperties.
Context `{PyFloat}.

Lemma last_cons_cons {A : Type} (x y : A) (l : list A) :
  last (x :: y :: l) = last (y :: l).
Proof. reflexivity. Qed.

(** The snapshot holds, for a field, the value of the last row scanned for
    it. *)
Lemma get_all_answers_lookup (db : database) (instance_id f : Z) :
  get_all_answers db instance_id !! f
  = answer_value <$> last (answer_rows db instance_id f).
Proof.
  unfold get_all_answers, answer_rows.
  rewrite <- (where_where (λ a, a_field_id a =? f) (λ a, a_instance_id a =? instance_id)).
  set (rows := where_ (λ a, a_instance_id a =? instance_id) (instance_answers db)).
  assert (Hgen : ∀ m : gmap Z pyval,
            foldl (λ answers_map row, <[a_field_id row := answer_value row]> answers_map)
              m rows !! f
            = match last (where_ (λ a, a_field_id a =? f) rows) with
              | Some r => Some (answer_value r)
              | None => m !! f
              end).
  { induction rows as [| a rows IH]; intros m; [done |].
    cbn [foldl]. rewrite IH. unfold where_. cbn [List.filter].
    destruct (Z.eqb_spec (a_field_id a) f) as [Heq | Hne].
    - destruct (List.filter _ rows) as [| b l] eqn:Hrest.
      + simpl. by rewrite Heq, lookup_insert_eq.
      + rewrite last_cons_cons.
        destruct (last (b :: l)) eqn:Hl; [done |]. by apply last_None in Hl.
    - destruct (last _); [done |]. by rewrite lookup_insert_ne. }
  rewrite Hgen. by destruct (last _).
Qed.

(** X7. The snapshot of an instance gives, for a field, the value of the
    last answer row of the instance for that field - the first of its
    boolean, text, number and date columns that is not null - and [None]
    when the instance has no row for the field. *)
Theorem get_all_answers_last_row (db : database) (instance_id f : Z) :
  dict_get (get_all_answers db instance_id) f
  = from_option answer_value PNone (last (answer_rows db instance_id f)).
Proof.
  unfold dict_get. rewrite get_all_answers_lookup. by destruct (last _).
Qed.


(** *** Upserts *)


Lemma upsert_answer_rows_other (now instance_id field_id i f : Z)
    (vals : answer_values) (db : database) :
  (i, f) ≠ (instance_id, field_id) →
  answer_rows (upsert_answer now instance_id field_id vals db) i f
  = answer_rows db i f.
Proof.
  intros Hne. unfold answer_rows, upsert_answer.
  assert (Hmiss : ∀ a, (a_instance_id a =? instance_id) && (a_field_id a =? field_id) = true →
                       (a_instance_id a =? i) && (a_field_id a =? f) = false).
  { intros a Ha. apply andb_true_iff in Ha as [Hi Hf].
    apply Z.eqb_eq in Hi, Hf. rewrite Hi, Hf.
    destruct (Z.eqb_spec instance_id i) as [-> | _]; [| done].
    destruct (Z.eqb_spec field_id f) as [-> | _]; done. }
  destruct (existsb _ (instance_answers db)); simpl.
  - induction (instance_answers db) as [| a rows IH]; [done |]. simpl.
    destruct ((a_instance_id a =? instance_id) && (a_field_id a =? field_id)) eqn:Ha.
    + simpl. rewrite (Hmiss a Ha), IH.
      destruct (Z.eqb_spec instance_id i) as [-> | _]; [| done].
      destruct (Z.eqb_spec field_id f) as [-> | _]; done.
    + by rewrite IH.
  - unfold where_. rewrite List.filter_app. simpl.
    destruct (Z.eqb_spec instance_id i) as [-> | _]; simpl;
      [| by rewrite app_nil_r].
    destruct (Z.eqb_spec field_id f) as [-> | _]; [done |].
    by rewrite app_nil_r.
Qed.

Lemma upsert_answer_keys (now instance_id field_id : Z) (vals : answer_values)
    (db : database) :
  NoDup (map answer_key (instance_answers db)) →
  NoDup (map answer_key
           (instance_answers (upsert_answer now instance_id field_id vals db))).
Proof.
  intros Hnodup. unfold upsert_answer.
  destruct (existsb _ (instance_answers db)) eqn:Hhit; simpl.
  - replace (map answer_key (map _ (instance_answers db)))
      with (map answer_key (instance_answers db)); [done |].
    rewrite map_map. apply map_ext. intros a.
    destruct ((a_instance_id a =? instance_id) && (a_field_id a =? field_id)) eqn:Ha;
      [| done].
    apply andb_true_iff in Ha as [Hi Hf]. apply Z.eqb_eq in Hi, Hf.
    unfold answer_key. simpl. by rewrite Hi, Hf.
  - rewrite map_app. simpl. apply NoDup_app. split; [done |]. split.
    + intros k Hk Hnew. apply list_elem_of_singleton in Hnew as ->.
      apply list_elem_of_fmap in Hk as (a & Hkey & Ha).
      assert (Hex : existsb (λ a, (a_instance_id a =? instance_id)
                                  && (a_field_id a =? field_id))
                      (instance_answers db) = true).
      { apply existsb_exists. exists a. rewrite <- list_elem_of_In. split; [done |].
        unfold answer_key in Hkey. simpl in Hkey. injection Hkey as Hi Hf.
        by rewrite <- Hi, <- Hf, !Z.eqb_refl. }
      congruence.
    + apply NoDup_singleton.
Qed.

(** What a run of the loop keeps: the rows of any other instance or field,
    and the uniqueness of the keys. *)
Lemma save_loop_rows_other (now instance_id i f : Z)
    (field_map : gmap string (Z * string)) (answers : list Answer) (w : world) :
  (i ≠ instance_id
   ∨ ∀ ans dt, ans ∈ answers → field_map !! field_code ans ≠ Some (f, dt)) →
  answer_rows (w_db (save_loop now instance_id field_map answers w).2) i f
  = answer_rows (w_db w) i f.
Proof.
  revert w. induction answers as [| ans rest IH]; intros w Hother; [done |].
  assert (Hrest : i ≠ instance_id
            ∨ ∀ ans' dt, ans' ∈ rest → field_map !! field_code ans' ≠ Some (f, dt)).
  { destruct Hother as [? | Hother]; [by left | right].
    intros ans' dt Hin. apply Hother. by right. }
  simpl. destruct (field_map !! field_code ans) as [[field_id data_type] |] eqn:Hmap;
    [| by apply IH].
  unfold mbind, M_bind, lift, execute.
  destruct (coerce data_type (value ans)) as [vals | e]; [| done].
  destruct (bind_param (v_date vals)) as [bound | e]; [| done].
  rewrite IH by done. simpl. apply upsert_answer_rows_other.
  intros [= -> ->]. destruct Hother as [? | Hother]; [done |].
  apply (Hother ans data_type); [left | done].
Qed.

Lemma save_loop_keys (now instance_id : Z) (field_map : gmap string (Z * string))
    (answers : list Answer) (w : world) :
  NoDup (map answer_key (instance_answers (w_db w))) →
  NoDup (map answer_key
           (instance_answers (w_db (save_loop now instance_id field_map answers w).2))).
Proof.
  revert w. induction answers as [| ans rest IH]; intros w Hnodup; [done |].
  simpl. destruct (field_map !! field_code ans) as [[field_id data_type] |];
    [| by apply IH].
  unfold mbind, M_bind, lift, execute.
  destruct (coerce data_type (value ans)) as [vals | e]; [| done].
  destruct (bind_param (v_date vals)) as [bound | e]; [| done].
  apply IH. simpl. by apply upsert_answer_keys.
Qed.



(** X10. [_save_answers] is all or nothing: when it raises, at a pair that
    cannot be coerced or bound, the store and the session cache are as they
    were before the call, the pairs saved before it included. *)
Theorem save_answers_failure (now instance_id step_id : Z) (answers : list Answer)
    (w w' : world) (e : exn) :
  save_answers now instance_id step_id answers w = (Raise e, w') →
  w' = w.
Proof.
  unfold save_answers, mbind, M_bind, query, transaction. simpl.
  pose proof (save_loop_frame now instance_id
                (field_map_of (fetch_fields_info (w_db w) step_id)) answers w)
    as [_ Hsessions].
  destruct (save_loop _ _ _ _ _) as [[[] | e'] w1]; [done |].
  simpl in Hsessions. intros [= _ <-]. rewrite Hsessions. by destruct w.
Qed.

(** X11. [_save_answers] for one instance touches the answers of no other:
    every other instance keeps its snapshot, whether the call succeeds or
    raises, and no table but the answers changes. *)
Theorem save_answers_other_instances (now instance_id step_id other : Z)
    (answers : list Answer) (w : world) :
  other ≠ instance_id →
  let w' := (save_answers now instance_id step_id answers w).2 in
  get_all_answers (w_db w') other = get_all_answers (w_db w) other
  ∧ set_instance_answers (instance_answers (w_db w)) (w_db w') = w_db w.
Proof.
  intros Hother w'. split; [| apply save_answers_frame].
  apply map_eq. intros f. rewrite !get_all_answers_lookup. f_equal. f_equal.
  subst w'. unfold save_answers, mbind, M_bind, query, transaction. simpl.
  pose proof (save_loop_rows_other now instance_id other f
                (field_map_of (fetch_fields_info (w_db w) step_id)) answers w
                (or_introl Hother)) as Hrows.
  by destruct (save_loop _ _ _ _ _) as [[[] | e'] w1].
Qed.

(** X12. [_save_answers] keeps the constraint [UNIQUE (instance_id,
    field_id)]: if no two answer rows share an instance and a field before
    the call, none do after it. *)
Theorem save_answers_keeps_unique (now instance_id step_id : Z)
    (answers : list Answer) (w : world) :
  NoDup (map answer_key (instance_answers (w_db w))) →
  NoDup (map answer_key
           (instance_answers (w_db (save_answers now instance_id step_id answers w).2))).
Proof.
  intros Hnodup. unfold save_answers, mbind, M_bind, query, transaction. simpl.
  pose proof (save_loop_keys now instance_id
                (field_map_of (fetch_fields_info (w_db w) step_id)) answers w Hnodup)
    as Hkeys.
  by destruct (save_loop _ _ _ _ _) as [[[] | e'] w1].
Qed.

End AnswerProperties.

(** ** Submission *)

Section SubmissionProperties.
Context `{PyFloat}.

(** [submit_step] from the point where the answers are saved. *)
Lemma submit_step_after_save (now instance_id s : Z) (answers : list Answer)
    (w w1 : world) (inst : form_instance_row) :
  fetch_instance (w_db w) instance_id = Some inst →
  fi_current_step_id inst = Some s → s ≠ 0 →
  save_answers now instance_id s answers w = (Ok (), w1) →
  let w2 := after_completion now instance_id s w1 in
  submit_step now instance_id answers w
  = match determine_next_step (w_db w2) instance_id s with
    | Raise e => (Raise e, w2)
    | Ok next_step_id =>
        match if_truthy next_step_id with
        | Some next =>
            match sync_session_state instance_id
                    {| w_db := log_entry now instance_id next
                                 (move_instance now instance_id next (w_db w2));
                       form_sessions := form_sessions w2 |} with
            | (Ok state, w4) =>
                (Ok {| r_instance_id := instance_id;
                       r_next_step_id := Some next;
                       r_next_step_code := ss_current_step_code state;
                       r_is_complete := false;
                       r_completed_steps := ss_completed_steps state;
                       r_available_steps := ss_available_steps state |}, w4)
            | (Raise e, w4) => (Raise e, w4)
            end
        | None =>
            match get_instance_status_id (w_db w2) "completed" with
            | Raise e => (Raise e, w2)
            | Ok sid =>
                match sync_session_state instance_id
                        {| w_db := finish_instance now instance_id sid (w_db w2);
                           form_sessions := form_sessions w2 |} with
                | (Ok state, w4) =>
                    (Ok {| r_instance_id := instance_id;
                           r_next_step_id := None;
                           r_next_step_code := None;
                           r_is_complete := true;
                           r_completed_steps := ss_completed_steps state;
                           r_available_steps := ss_available_steps state |}, w4)
                | (Raise e, w4) => (Raise e, w4)
                end
            end
        end
    end.
Proof.
  intros Hinst Hcur Hs Hsave w2.
  unfold submit_step. unfold mbind at 1, M_bind at 1, query at 1. simpl.
  rewrite Hinst. simpl. rewrite Hcur. simpl.
  destruct (Z.eqb_spec s 0) as [? | _]; [done |].
  unfold mbind at 1, M_bind at 1. rewrite Hsave.
  unfold mbind at 1, M_bind at 1, execute at 1.
  unfold mbind at 1, M_bind at 1, query at 1. simpl.
  fold (after_completion now instance_id s w1). fold w2.
  change (complete_step now instance_id s (w_db w1)) with (w_db w2).
  destruct (determine_next_step (w_db w2) instance_id s) as [next_step_id | e];
    [| done].
  destruct (if_truthy next_step_id) as [next |];
    unfold mbind, M_bind, query, execute, mret, M_ret; reflexivity.
Qed.

(** What [after_completion] reads of the store as it was before the call. *)
Lemma after_completion_frame (now instance_id s : Z) (answers : list Answer)
    (w w1 : world) :
  save_answers now instance_id s answers w = (Ok (), w1) →
  let db2 := w_db (after_completion now instance_id s w1) in
  form_steps db2 = form_steps (w_db w)
  ∧ forms db2 = forms (w_db w)
  ∧ instance_statuses db2 = instance_statuses (w_db w)
  ∧ form_instances db2 = form_instances (w_db w)
  ∧ instance_steps db2 = instance_steps (complete_step now instance_id s (w_db w))
  ∧ instance_answers db2 = instance_answers (w_db w1)
  ∧ get_valid_forward_steps db2 instance_id s
    = get_valid_forward_steps (w_db w1) instance_id s.
Proof.
  intros Hsave db2.
  pose proof (save_answers_frame now instance_id s answers w) as [Hframe _].
  rewrite Hsave in Hframe. simpl in Hframe. subst db2. simpl.
  repeat split; try (rewrite <- Hframe; reflexivity).
  by apply get_valid_forward_steps_ext.
Qed.

Lemma fetch_instance_moved (now instance_id next : Z) (db : database)
    (inst : form_instance_row) :
  fetch_instance db instance_id = Some inst →
  fetch_instance (move_instance now instance_id next db) instance_id
  = Some (moved now next inst).
Proof.
  unfold fetch_instance, move_instance. simpl.
  induction (form_instances db) as [| row rows IH]; [done |].
  unfold where_ in *. cbn [map List.filter].
  destruct (fi_id row =? instance_id) eqn:Hrow.
  - cbn. rewrite Hrow. by intros [= ->].
  - rewrite Hrow. exact IH.
Qed.

(** Without an instance or without a current step nothing runs. *)
Lemma submit_step_not_found_None (now instance_id : Z) (answers : list Answer)
    (w : world) :
  fetch_instance (w_db w) instance_id ≫= (λ i, if_truthy (fi_current_step_id i))
  = None →
  submit_step now instance_id answers w = (Raise (HTTPException 404), w).
Proof.
  intros Hnone. unfold submit_step.
  unfold mbind at 1, M_bind at 1, query at 1. simpl. by rewrite Hnone.
Qed.


(** X14. When, once the answers are saved, the step that is not terminal
    has forward steps, [submit_step] advances to the first of them: the
    ledger rows of the current step are completed, one ledger row records
    the entry into the next step, and the instance points to the next step
    with its status unchanged; a response says the form is not complete. *)
Theorem submit_step_advances (now instance_id s next : Z) (rest : list Z)
    (answers : list Answer) (w w1 : world) (inst : form_instance_row)
    (step : form_step_row) :
  fetch_instance (w_db w) instance_id = Some inst →
  fi_current_step_id inst = Some s → s ≠ 0 →
  fetch_step (w_db w) s = Some step → fs_is_terminal step = false →
  save_answers now instance_id s answers w = (Ok (), w1) →
  get_valid_forward_steps (w_db w1) instance_id s = Ok (next :: rest) →
  next ≠ 0 →
  let r := (submit_step now instance_id answers w).1 in
  let w' := (submit_step now instance_id answers w).2 in
  fetch_instance (w_db w') instance_id = Some (moved now next inst)
  ∧ instance_steps (w_db w')
    = instance_steps (complete_step now instance_id s (w_db w))
      ++ [entry_row now instance_id next (complete_step now instance_id s (w_db w))]
  ∧ instance_answers (w_db w') = instance_answers (w_db w1)
  ∧ ∀ resp, r = Ok resp →
            r_next_step_id resp = Some next ∧ r_is_complete resp = false.
Proof.
  intros Hinst Hcur Hs Hstep Hterm Hsave Hfwd Hnext r w'. subst r w'.
  rewrite (submit_step_after_save _ _ _ _ _ _ _ Hinst Hcur Hs Hsave).
  destruct (after_completion_frame _ _ _ _ _ _ Hsave)
    as (Hsteps & _ & _ & Hinsts & Hledger & Hanswers & Hforward).
  set (w2 := after_completion now instance_id s w1) in *.
  assert (Hdet : determine_next_step (w_db w2) instance_id s = Ok (Some next)).
  { unfold determine_next_step, fetch_step. rewrite Hsteps.
    fold (fetch_step (w_db w) s). by rewrite Hstep, Hterm, Hforward, Hfwd. }
  rewrite Hdet. simpl. destruct (Z.eqb_spec next 0) as [? | _]; [done |].
  match goal with
  | |- context [sync_session_state ?i ?w3] =>
      pose proof (sync_session_state_db i w3) as Hsync;
      destruct (sync_session_state i w3) as [[state | e] w4]
  end; simpl in *; rewrite Hsync.
  all: assert (Hbefore : fetch_instance (complete_step now instance_id s (w_db w1))
                           instance_id = Some inst)
         by (unfold fetch_instance; simpl; by rewrite Hinsts).
  all: split; [exact (fetch_instance_moved now instance_id next _ inst Hbefore) |].
  all: split; [unfold entry_row; simpl; by rewrite Hledger |].
  all: split; [done |].
  all: intros resp Hresp; try done; by injection Hresp as <-.
Qed.

(** X15. [submit_step] runs in no transaction: when the table of statuses
    has no [completed] row, submitting a terminal step raises [ValueError]
    after the answers were saved and the ledger rows completed, and the
    instance keeps its current step and its status. *)
Theorem submit_step_without_status (now instance_id s : Z) (answers : list Answer)
    (w w1 : world) (inst : form_instance_row) (step : form_step_row) :
  fetch_instance (w_db w) instance_id = Some inst →
  fi_current_step_id inst = Some s → s ≠ 0 →
  fetch_step (w_db w) s = Some step → fs_is_terminal step = true →
  save_answers now instance_id s answers w = (Ok (), w1) →
  get_instance_status_id (w_db w) "completed" = Raise ValueError →
  submit_step now instance_id answers w
  = (Raise ValueError, after_completion now instance_id s w1)
  ∧ fetch_instance (w_db (after_completion now instance_id s w1)) instance_id
    = Some inst
  ∧ instance_answers (w_db (after_completion now instance_id s w1))
    = instance_answers (w_db w1)
  ∧ instance_steps (w_db (after_completion now instance_id s w1))
    = instance_steps (complete_step now instance_id s (w_db w)).
Proof.
  intros Hinst Hcur Hs Hstep Hterm Hsave Hstatus.
  rewrite (submit_step_after_save _ _ _ _ _ _ _ Hinst Hcur Hs Hsave).
  destruct (after_completion_frame _ _ _ _ _ _ Hsave)
    as (Hsteps & _ & Hstatuses & Hinsts & Hledger & Hanswers & _).
  set (w2 := after_completion now instance_id s w1) in *.
  assert (Hdet : determine_next_step (w_db w2) instance_id s = Ok None).
  { unfold determine_next_step, fetch_step. rewrite Hsteps.
    fold (fetch_step (w_db w) s). by rewrite Hstep, Hterm. }
  assert (Hstatus2 : get_instance_status_id (w_db w2) "completed" = Raise ValueError).
  { unfold get_instance_status_id in *. by rewrite Hstatuses. }
  rewrite Hdet. cbn [if_truthy]. rewrite Hstatus2.
  repeat split; try done.
  unfold fetch_instance. by rewrite Hinsts.
Qed.

Lemma fetch_step_elem (db : database) (step_id : Z) (step : form_step_row) :
  fetch_step db step_id = Some step → step ∈ form_steps db ∧ fs_id step = step_id.
Proof.
  unfold fetch_step. intros Hhead.
  apply head_Some in Hhead as [l Hl].
  assert (Hin : step ∈ where_ (λ s, fs_id s =? step_id) (form_steps db))
    by (rewrite Hl; left).
  apply elem_of_where in Hin as [Hin Hid]. by apply Z.eqb_eq in Hid.
Qed.

Lemma elem_of_fetch_completed (db : database) (instance_id : Z)
    (row : instance_step_row) (step : form_step_row) :
  (row, step) ∈ fetch_completed db instance_id
  ↔ row ∈ instance_steps db ∧ step ∈ form_steps db
    ∧ is_step_id row = fs_id step ∧ is_instance_id row = instance_id
    ∧ is_status_code row = "completed".
Proof.
  unfold fetch_completed. rewrite elem_of_order_by, elem_of_where. simpl.
  rewrite andb_true_iff, Z.eqb_eq, String.eqb_eq. split.
  - intros [Hjoin [Hi Hc]].
    apply list_elem_of_bind in Hjoin as (ist & Hjoin & Hist).
    apply list_elem_of_bind in Hjoin as (fs & Hjoin & Hfs).
    apply list_elem_of_singleton in Hjoin as [= -> ->].
    apply elem_of_where in Hfs as [Hfs Hid]. by apply Z.eqb_eq in Hid.
  - intros (Hrow & Hstep & Hid & Hi & Hc). split; [| done].
    apply list_elem_of_bind. exists row. split; [| done].
    apply list_elem_of_bind. exists step. split; [left |].
    apply elem_of_where. split; [done |]. by apply Z.eqb_eq.
Qed.

(** The state computed for an instance without a current step. *)
Lemma sync_session_state_no_current (instance_id : Z) (w : world)
    (inst : form_instance_row) (form : form_row) :
  fetch_instance (w_db w) instance_id = Some inst →
  if_truthy (fi_current_step_id inst) = None →
  fetch_form (w_db w) (fi_form_id inst) = Some form →
  let codes := map (λ r, fs_code r.2) (fetch_completed (w_db w) instance_id) in
  let state :=
    {| ss_form_id := fi_form_id inst; ss_form_code := form_code form;
       ss_current_step_id := fi_current_step_id inst;
       ss_current_step_code := None;
       ss_completed_steps := codes;
       ss_available_steps := fromkeys codes |} in
  sync_session_state instance_id w
  = (Ok state,
     {| w_db := w_db w; form_sessions := <[instance_id := state]> (form_sessions w) |}).
Proof.
  intros Hinst Hcur Hform codes state. unfold sync_session_state.
  rewrite Hinst, Hform. unfold get_navigation_summary. by rewrite Hcur.
Qed.

(** X16. Submitting a terminal step finishes the instance without looking
    at any transition: with a [completed] status and the form in place, the
    response says the form is complete with no next step, the instance has
    no current step, the available steps are the completed ones without
    repetition, and the terminal step is among them if the ledger has a row
    for it. *)
Theorem submit_step_terminal (now instance_id s sid : Z) (answers : list Answer)
    (w w1 : world) (inst : form_instance_row) (step : form_step_row)
    (form : form_row) :
  fetch_instance (w_db w) instance_id = Some inst →
  fi_current_step_id inst = Some s → s ≠ 0 →
  fetch_step (w_db w) s = Some step → fs_is_terminal step = true →
  save_answers now instance_id s answers w = (Ok (), w1) →
  get_instance_status_id (w_db w) "completed" = Ok sid →
  fetch_form (w_db w) (fi_form_id inst) = Some form →
  ∃ resp w',
    submit_step now instance_id answers w = (Ok resp, w')
    ∧ r_is_complete resp = true ∧ r_next_step_id resp = None
    ∧ r_available_steps resp = fromkeys (r_completed_steps resp)
    ∧ fetch_instance (w_db w') instance_id = Some (finished now sid inst)
    ∧ ((∃ row, row ∈ instance_steps (w_db w) ∧ is_instance_id row = instance_id
               ∧ is_step_id row = s) →
       fs_code step ∈ r_completed_steps resp).
Proof.
  intros Hinst Hcur Hs Hstep Hterm Hsave Hstatus Hform.
  rewrite (submit_step_after_save _ _ _ _ _ _ _ Hinst Hcur Hs Hsave).
  destruct (after_completion_frame _ _ _ _ _ _ Hsave)
    as (Hsteps & Hforms & Hstatuses & Hinsts & Hledger & Hanswers & _).
  set (w2 := after_completion now instance_id s w1) in *.
  assert (Hdet : determine_next_step (w_db w2) instance_id s = Ok None).
  { unfold determine_next_step, fetch_step. rewrite Hsteps.
    fold (fetch_step (w_db w) s). by rewrite Hstep, Hterm. }
  assert (Hstatus2 : get_instance_status_id (w_db w2) "completed" = Ok sid).
  { unfold get_instance_status_id in *. by rewrite Hstatuses. }
  rewrite Hdet. cbn [if_truthy]. rewrite Hstatus2.
  assert (Hfinished : fetch_instance (finish_instance now instance_id sid (w_db w2))
                        instance_id = Some (finished now sid inst)).
  { apply fetch_instance_finished. unfold fetch_instance. by rewrite Hinsts. }
  assert (Hform2 : fetch_form (finish_instance now instance_id sid (w_db w2))
                     (fi_form_id (finished now sid inst)) = Some form).
  { change (fetch_form (w_db w2) (fi_form_id inst) = Some form).
    unfold fetch_form in *. by rewrite Hforms. }
  rewrite (sync_session_state_no_current instance_id
             {| w_db := finish_instance now instance_id sid (w_db w2);
                form_sessions := form_sessions w2 |}
             (finished now sid inst) form Hfinished eq_refl Hform2).
  eexists _, _. split; [reflexivity |]. simpl.
  repeat split; try done.
  intros (row & Hrow & Hri & Hrs).
  apply list_elem_of_fmap.
  destruct (fetch_step_elem _ _ _ Hstep) as [Hin Hid].
  exists ({| is_id := is_id row; is_instance_id := is_instance_id row;
             is_step_id := is_step_id row; is_status_code := "completed";
             is_entered_at := is_entered_at row; is_left_at := Some now |}, step).
  split; [done |].
  match goal with
  | |- ?x ∈ _ => change (x ∈ fetch_completed (w_db w2) instance_id)
  end.
  apply elem_of_fetch_completed. rewrite Hsteps, Hledger.
  split; [| by repeat split; try done; simpl; congruence].
  unfold complete_step. simpl. apply list_elem_of_fmap. exists row.
  split; [| done]. by rewrite Hri, Hrs, !Z.eqb_refl.
Qed.

Lemma if_truthy_Some (o : option Z) (z : Z) :
  if_truthy o = Some z → o = Some z ∧ z ≠ 0.
Proof.
  destruct o as [y |]; simpl; [| done].
  destruct (Z.eqb_spec y 0); [done |]. by intros [= <-].
Qed.

(** X17. After a [submit_step] that returns a response, the session cache
    holds for the instance the state of the store: its entry has the
    current step of the instance row and the completed and available steps
    of the response. *)
Theorem submit_step_cache_coherent (now instance_id : Z) (answers : list Answer)
    (w w' : world) (resp : SubmitStepResponse) :
  submit_step now instance_id answers w = (Ok resp, w') →
  ∃ state inst',
    form_sessions w' !! instance_id = Some state
    ∧ fetch_instance (w_db w') instance_id = Some inst'
    ∧ ss_current_step_id state = fi_current_step_id inst'
    ∧ ss_form_id state = fi_form_id inst'
    ∧ r_next_step_id resp = if_truthy (fi_current_step_id inst')
    ∧ r_completed_steps resp = ss_completed_steps state
    ∧ r_available_steps resp = ss_available_steps state.
Proof.
  intros Hrun.
  destruct (fetch_instance (w_db w) instance_id) as [inst |] eqn:Hinst;
    [| by rewrite submit_step_not_found_None in Hrun by (by rewrite Hinst)].
  destruct (if_truthy (fi_current_step_id inst)) as [s |] eqn:Hcur;
    [| by rewrite submit_step_not_found_None in Hrun by (by rewrite Hinst)].
  assert (Hs : fi_current_step_id inst = Some s ∧ s ≠ 0).
  { unfold if_truthy in Hcur. destruct (fi_current_step_id inst) as [z |]; [| done].
    destruct (Z.eqb_spec z 0); [done |]. by injection Hcur as ->. }
  destruct Hs as [Hcur' Hs].
  destruct (save_answers now instance_id s answers w) as [[[] | e] w1] eqn:Hsave.
  2: { unfold submit_step in Hrun.
       unfold mbind at 1, M_bind at 1, query at 1 in Hrun. simpl in Hrun.
       rewrite Hinst in Hrun. simpl in Hrun. rewrite Hcur in Hrun.
       unfold mbind at 1, M_bind at 1 in Hrun. by rewrite Hsave in Hrun. }
  rewrite (submit_step_after_save _ _ _ _ _ _ _ Hinst Hcur' Hs Hsave) in Hrun.
  assert (Hinst2 : fetch_instance (w_db (after_completion now instance_id s w1))
                     instance_id = Some inst).
  { destruct (after_completion_frame _ _ _ _ _ _ Hsave) as (_ & _ & _ & Hinsts & _).
    unfold fetch_instance in *. by rewrite Hinsts. }
  set (w2 := after_completion now instance_id s w1) in *.
  destruct (determine_next_step _ _ _) as [next_step_id | e]; [| done].
  assert (Hsync : ∀ w3 state w4,
            sync_session_state instance_id w3 = (Ok state, w4) →
            ∃ inst', form_sessions w4 !! instance_id = Some state
                     ∧ fetch_instance (w_db w3) instance_id = Some inst'
                     ∧ w_db w4 = w_db w3
                     ∧ ss_current_step_id state = fi_current_step_id inst'
                     ∧ ss_form_id state = fi_form_id inst').
  { intros w3 state w4. unfold sync_session_state.
    destruct (fetch_instance (w_db w3) instance_id) as [inst' |] eqn:Hi; [| done].
    destruct (fetch_form _ _); [| done].
    destruct (get_navigation_summary _ _ _); [| done].
    intros [= <- <-]. exists inst'. simpl. by rewrite lookup_insert_eq. }
  destruct (if_truthy next_step_id) as [next |] eqn:Hnext.
  - destruct (sync_session_state _ _) as [[state | e] w4] eqn:Hsy; [| done].
    injection Hrun as <- <-.
    destruct (Hsync _ _ _ Hsy) as (inst' & Hc & Hi & Hdb & Hcs & Hf).
    assert (Heq : Some inst' = Some (moved now next inst)).
    { rewrite <- Hi. exact (fetch_instance_moved now instance_id next _ inst Hinst2). }
    injection Heq as ->.
    exists state, (moved now next inst). rewrite Hdb. repeat split; try done.
    simpl. by apply if_truthy_Some in Hnext as [_ ->%Z.eqb_neq].
  - destruct (get_instance_status_id _ _) as [sid | e]; [| done].
    destruct (sync_session_state _ _) as [[state | e] w4] eqn:Hsy; [| done].
    injection Hrun as <- <-.
    destruct (Hsync _ _ _ Hsy) as (inst' & Hc & Hi & Hdb & Hcs & Hf).
    assert (Heq : Some inst' = Some (finished now sid inst)).
    { rewrite <- Hi. exact (fetch_instance_finished now instance_id sid _ inst Hinst2). }
    injection Heq as ->.
    exists state, (finished now sid inst). rewrite Hdb. by repeat split.
Qed.

End SubmissionProperties.

(** ** The navigation summary *)

Section NavigationProperties.
Context `{PyFloat}.

Lemma elem_of_append_new (codes : list string) (code x : string) :
  x ∈ append_new codes code ↔ x ∈ codes ∨ x = code.
Proof.
  unfold append_new. case_bool_decide as Hin.
  - split; [by left |]. by intros [? | ->].
  - rewrite elem_of_app, list_elem_of_singleton. done.
Qed.

Lemma NoDup_append_new (codes : list string) (code : string) :
  NoDup codes → NoDup (append_new codes code).
Proof.
  intros Hnodup. unfold append_new. case_bool_decide as Hin; [done |].
  apply NoDup_app. split; [done |]. split; [| apply NoDup_singleton].
  intros x Hx Hc. apply list_elem_of_singleton in Hc as ->. done.
Qed.

Lemma prefix_append_new (codes : list string) (code : string) :
  codes `prefix_of` append_new codes code.
Proof.
  unfold append_new. case_bool_decide; [done |]. by apply prefix_app_r.
Qed.

(** A loop that appends to the list codes it does not hold yet. *)
Lemma foldl_append_new {A : Type} (pick : A → option string) (l : list A)
    (acc : list string) :
  let step (acc : list string) (x : A) :=
    match pick x with Some code => append_new acc code | None => acc end in
  NoDup acc →
  NoDup (foldl step acc l)
  ∧ acc `prefix_of` foldl step acc l
  ∧ ∀ c, c ∈ foldl step acc l ↔ c ∈ acc ∨ ∃ x, x ∈ l ∧ pick x = Some c.
Proof.
  intros step. revert acc. induction l as [| x l IH]; intros acc Hnodup.
  - simpl. split; [done |]. split; [done |]. intros c. split; [by left |].
    intros [? | (x & Hx & _)]; [done |]. by apply elem_of_nil in Hx.
  - cbn [foldl].
    assert (Hnext : NoDup (step acc x) ∧ acc `prefix_of` step acc x
                    ∧ ∀ c, c ∈ step acc x ↔ c ∈ acc ∨ pick x = Some c).
    { unfold step. destruct (pick x) as [code |].
      - split; [by apply NoDup_append_new |]. split; [apply prefix_append_new |].
        intros c. rewrite elem_of_append_new. split.
        + intros [? | ->]; [by left | by right].
        + intros [? | [= ->]]; [by left | by right].
      - split; [done |]. split; [done |]. intros c. split; [by left |].
        by intros [? | ?]. }
    destruct Hnext as (Hnd & Hpre & Hmem).
    destruct (IH (step acc x) Hnd) as (IHnd & IHpre & IHmem).
    split; [done |]. split; [by etrans |].
    intros c. rewrite IHmem, Hmem. split.
    + intros [[? | Hx] | (y & Hy & Hp)]; [by left | |].
      * right. exists x. split; [left | done].
      * right. exists y. split; [by right | done].
    + intros [? | (y & Hy & Hp)]; [by left; left |].
      apply elem_of_cons in Hy as [-> | Hy]; [by left; right |].
      right. eauto.
Qed.

Lemma foldl_pointwise {A B : Type} (f g : B → A → B) (l : list A) (acc : B) :
  (∀ acc x, f acc x = g acc x) → foldl f acc l = foldl g acc l.
Proof.
  intros Hfg. revert acc. induction l as [| x l IH]; intros acc; [done |].
  cbn [foldl]. by rewrite Hfg, IH.
Qed.

Lemma fromkeys_spec (codes : list string) :
  NoDup (fromkeys codes) ∧ ∀ c, c ∈ fromkeys codes ↔ c ∈ codes.
Proof.
  destruct (foldl_append_new Some codes [] (NoDup_nil_2)) as (Hnd & _ & Hmem).
  unfold fromkeys. split; [exact Hnd |].
  intros c. rewrite (Hmem c). split.
  - intros [Hc | (x & Hx & [= ->])]; [by apply elem_of_nil in Hc | done].
  - intros Hc. right. eauto.
Qed.

Lemma get_step_codes_lookup (db : database) (step_ids : list Z) (id : Z)
    (code : string) :
  get_step_codes db step_ids !! id = Some code →
  ∃ st, st ∈ form_steps db ∧ fs_id st = id ∧ fs_code st = code ∧ id ∈ step_ids.
Proof.
  unfold get_step_codes. destruct step_ids as [| i0 ids]; [by rewrite lookup_empty |].
  set (rows := where_ _ _).
  assert (Hrows : ∀ st, st ∈ rows → st ∈ form_steps db ∧ fs_id st ∈ i0 :: ids).
  { intros st Hst. apply elem_of_where in Hst as [Hst Hid].
    by apply bool_decide_eq_true in Hid. }
  assert (Hgen : ∀ m : gmap Z string,
            foldl (λ m row, <[fs_id row := fs_code row]> m) m rows !! id = Some code →
            m !! id = Some code
            ∨ ∃ st, st ∈ rows ∧ fs_id st = id ∧ fs_code st = code).
  { clear Hrows. induction rows as [| st rows IH]; intros m Hm; [by left |].
    cbn [foldl] in Hm. apply IH in Hm as [Hm | (st' & Hin & ? & ?)].
    - destruct (decide (fs_id st = id)) as [Heq | Hne].
      + rewrite Heq, lookup_insert_eq in Hm. injection Hm as <-.
        right. exists st. split; [left | done].
      + rewrite lookup_insert_ne in Hm by done. by left.
    - right. exists st'. split; [by right | done]. }
  intros Hlook. apply Hgen in Hlook as [Hempty | (st & Hst & Hid & Hcode)];
    [by rewrite lookup_empty in Hempty |].
  destruct (Hrows st Hst) as [Hin Hids]. exists st. by rewrite <- Hid.
Qed.

(** X18. In a navigation summary the available steps hold no code twice
    and start with the completed steps in their order, repetitions removed;
    they hold every completed step and the current step, and nothing but
    these and the codes of the forward steps of the current step. *)
Theorem navigation_summary_available (db : database) (instance_id : Z)
    (current_step_id : option Z) (nav : navigation) :
  get_navigation_summary db instance_id current_step_id = Ok nav →
  NoDup (nav_available_steps nav)
  ∧ fromkeys (nav_completed_steps nav) `prefix_of` nav_available_steps nav
  ∧ (∀ c, c ∈ nav_completed_steps nav → c ∈ nav_available_steps nav)
  ∧ (∀ c, nav_current_step_code nav = Some c → c ∈ nav_available_steps nav)
  ∧ (∀ c, c ∈ nav_available_steps nav →
          c ∈ nav_completed_steps nav
          ∨ nav_current_step_code nav = Some c
          ∨ ∃ cur forward_ids st,
              if_truthy current_step_id = Some cur
              ∧ get_valid_forward_steps db instance_id cur = Ok forward_ids
              ∧ fs_id st ∈ forward_ids ∧ st ∈ form_steps db ∧ fs_code st = c).
Proof.
  unfold get_navigation_summary.
  set (completed := map (λ r, fs_code r.2) (fetch_completed db instance_id)).
  destruct (fromkeys_spec completed) as [Hnd Hmem].
  destruct (if_truthy current_step_id) as [cur |] eqn:Hcur.
  2: { intros [= <-]. simpl. split; [done |]. split; [done |].
       split; [by intros c; rewrite Hmem |]. split; [done |].
       intros c. rewrite Hmem. by left. }
  destruct (get_valid_forward_steps db instance_id cur) as [forward_ids | e] eqn:Hfwd;
    [| done].
  simpl. intros [= <-]. simpl.
  set (with_current :=
         match fs_code <$> fetch_step db cur with
         | Some code => append_new (fromkeys completed) code
         | None => fromkeys completed
         end).
  assert (Hcurrent : NoDup with_current ∧ fromkeys completed `prefix_of` with_current
            ∧ ∀ c, c ∈ with_current
                   ↔ c ∈ completed ∨ fs_code <$> fetch_step db cur = Some c).
  { unfold with_current. destruct (fs_code <$> fetch_step db cur) as [code |].
    - split; [by apply NoDup_append_new |]. split; [apply prefix_append_new |].
      intros c. rewrite elem_of_append_new, Hmem. split.
      + intros [? | ->]; [by left | by right].
      + intros [? | [= ->]]; [by left | by right].
    - split; [done |]. split; [done |]. intros c. rewrite Hmem.
      split; [by left | by intros [? | ?]]. }
  destruct Hcurrent as (Hnd1 & Hpre1 & Hmem1).
  pose (pick := λ step_id : Z,
          match get_step_codes db forward_ids !! step_id with
          | Some code => if String.eqb code EmptyString then None else Some code
          | None => None
          end).
  destruct (foldl_append_new pick forward_ids with_current Hnd1)
    as (Hnd2 & Hpre2 & Hmem2).
  match goal with
  | |- NoDup ?l ∧ _ =>
      replace l with
        (foldl (λ acc x, match pick x with
                         | Some code => append_new acc code
                         | None => acc
                         end) with_current forward_ids)
  end.
  2: { apply foldl_pointwise. intros acc x. unfold pick.
       destruct (get_step_codes db forward_ids !! x) as [code |]; [| done].
       by destruct (String.eqb code EmptyString). }
  split; [done |]. split; [by etrans |].
  split; [intros c Hc; apply Hmem2; left; apply Hmem1; by left |].
  split; [intros c Hc; apply Hmem2; left; apply Hmem1; by right |].
  intros c Hc. apply Hmem2 in Hc as [Hc | (id & Hid & Hpick)].
  - apply Hmem1 in Hc as [? | ?]; [by left | by right; left].
  - right. right. unfold pick in Hpick.
    destruct (get_step_codes db forward_ids !! id) as [code |] eqn:Hlook; [| done].
    destruct (String.eqb code EmptyString); [done |]. injection Hpick as ->.
    apply get_step_codes_lookup in Hlook as (st & Hst & Hsid & Hcode & _).
    exists cur, forward_ids, st. by rewrite Hsid.
Qed.

End NavigationProperties.

(** ** The session endpoints *)

Section EndpointProperties.
Context `{PyFloat}.
Variable StepResponse : Type.
Variable get_step_details : database → Z → Z → option Z → result StepResponse.

(** What a run of [_get_session_for_form] has checked and done. *)
Lemma get_session_for_form_run (form_code : string) (session_id : Z) (w : world) :
  match get_session_for_form form_code session_id w with
  | (Ok (form_id, state), w') =>
      get_form_id_by_code (w_db w) form_code = Ok form_id
      ∧ (∃ inst, fetch_instance (w_db w) session_id = Some inst
                 ∧ fi_form_id inst = form_id
                 ∧ ss_current_step_id state = fi_current_step_id inst)
      ∧ w_db w' = w_db w
      ∧ form_sessions w' !! session_id = Some state
  | (Raise e, w') => w' = w
  end.
Proof.
  unfold get_session_for_form.
  unfold mbind at 1, M_bind at 1, query at 1. simpl.
  destruct (get_form_id_by_code (w_db w) form_code) as [form_id | e]; [| done].
  unfold mbind at 1, M_bind at 1, query at 1. simpl.
  destruct (fetch_instance (w_db w) session_id) as [inst |] eqn:Hinst; [| done].
  destruct (Z.eqb_spec (fi_form_id inst) form_id) as [Hform | _]; [| done].
  unfold mbind, M_bind, mret, M_ret, sync_session_state. rewrite Hinst.
  destruct (fetch_form _ _); [| done].
  destruct (get_navigation_summary _ _ _); [| done].
  simpl. rewrite lookup_insert_eq. repeat split; try done. by exists inst.
Qed.


(** X20. [update_session_step] writes to the store only through
    [_save_answers], and only once the form code, the session, the step
    code and the navigation to the step have all been accepted: otherwise
    it raises and the store is as it was. *)
Theorem update_session_step_guarded (now : Z) (form_code : string)
    (session_id : Z) (step_code : string) (answers : list Answer) (w : world) :
  let run := update_session_step StepResponse get_step_details
               now form_code session_id step_code answers w in
  (∃ e, run.1 = Raise e ∧ w_db run.2 = w_db w)
  ∨ ∃ form_id inst step_id w0,
      get_form_id_by_code (w_db w) form_code = Ok form_id
      ∧ fetch_instance (w_db w) session_id = Some inst
      ∧ fi_form_id inst = form_id
      ∧ get_step_id_by_code (w_db w) form_id step_code = Ok step_id
      ∧ validate_navigation (w_db w) session_id (fi_current_step_id inst) step_id
        = Ok ()
      ∧ w_db w0 = w_db w
      ∧ w_db run.2 = w_db (save_answers now session_id step_id answers w0).2.
Proof.
  intros run. subst run.
  destruct (update_session_step _ _ _ _ _ _ _ w) as [r w'] eqn:Hrun. cbn [fst snd].
  unfold update_session_step in Hrun.
  unfold mbind at 1, M_bind at 1 in Hrun.
  pose proof (get_session_for_form_run form_code session_id w) as Hsession.
  destruct (get_session_for_form form_code session_id w) as [[[form_id state] | e] w0].
  2: { injection Hrun as <- <-. left. exists e. by rewrite Hsession. }
  destruct Hsession as (Hcode & (inst & Hinst & Hform & Hcur) & Hdb & _).
  cbn [fst snd] in Hrun.
  unfold mbind at 1, M_bind at 1, query at 1 in Hrun. rewrite Hdb in Hrun.
  destruct (get_step_id_by_code (w_db w) form_id step_code) as [step_id | e] eqn:Hstep.
  2: { injection Hrun as <- <-. left. by exists e. }
  unfold mbind at 1, M_bind at 1, query at 1 in Hrun. rewrite Hdb, Hcur in Hrun.
  destruct (validate_navigation (w_db w) session_id (fi_current_step_id inst) step_id)
    as [[] | e] eqn:Hvalid.
  2: { injection Hrun as <- <-. left. by exists e. }
  right. exists form_id, inst, step_id, w0. repeat split; try done.
  unfold mbind at 1, M_bind at 1 in Hrun.
  destruct (save_answers now session_id step_id answers w0) as [[[] | e] w1];
    [| by injection Hrun as <- <-].
  unfold mbind at 1, M_bind at 1 in Hrun.
  pose proof (sync_session_state_db session_id w1) as Hsync.
  destruct (sync_session_state session_id w1) as [[state' | e] w2];
    [| by injection Hrun as <- <-].
  unfold query in Hrun. by injection Hrun as <- <-.
Qed.

(** X21. [get_session_step] never writes to the store, and it renders a
    step only when the form code, the session and the step code resolve and
    the navigation to the step is allowed. *)
Theorem get_session_step_guarded (form_code : string) (session_id : Z)
    (step_code : string) (w : world) :
  let run := get_session_step StepResponse get_step_details
               form_code session_id step_code w in
  w_db run.2 = w_db w
  ∧ ∀ resp, run.1 = Ok resp →
      ∃ form_id inst step_id,
        get_form_id_by_code (w_db w) form_code = Ok form_id
        ∧ fetch_instance (w_db w) session_id = Some inst
        ∧ fi_form_id inst = form_id
        ∧ get_step_id_by_code (w_db w) form_id step_code = Ok step_id
        ∧ validate_navigation (w_db w) session_id (fi_current_step_id inst) step_id
          = Ok ()
        ∧ get_step_details (w_db w) session_id step_id (fi_current_step_id inst)
          = Ok resp.
Proof.
  intros run. subst run.
  destruct (get_session_step _ _ _ _ _ w) as [r w'] eqn:Hrun. cbn [fst snd].
  unfold get_session_step in Hrun.
  unfold mbind at 1, M_bind at 1 in Hrun.
  pose proof (get_session_for_form_run form_code session_id w) as Hsession.
  destruct (get_session_for_form form_code session_id w) as [[[form_id state] | e] w0].
  2: { injection Hrun as <- <-. by rewrite Hsession. }
  destruct Hsession as (Hcode & (inst & Hinst & Hform & Hcur) & Hdb & _).
  cbn [fst snd] in Hrun.
  unfold mbind at 1, M_bind at 1, query at 1 in Hrun. rewrite Hdb in Hrun.
  destruct (get_step_id_by_code (w_db w) form_id step_code) as [step_id | e] eqn:Hstep;
    [| by injection Hrun as <- <-].
  unfold mbind at 1, M_bind at 1, query at 1 in Hrun. rewrite Hdb, Hcur in Hrun.
  destruct (validate_navigation (w_db w) session_id (fi_current_step_id inst) step_id)
    as [[] | e] eqn:Hvalid; [| by injection Hrun as <- <-].
  unfold query in Hrun. rewrite Hdb in Hrun. injection Hrun as <- <-.
  split; [done |]. intros resp Hresp. by exists form_id, inst, step_id.
Qed.


End EndpointProperties.

(** * The properties on the seeded store *)

Section Closed.
Import IntFloat.



(** C2, as stated, fails where a terminal step has a route of its own:
    step 30 is terminal and its forward steps are not empty. *)
Lemma terminal_step_with_forward_steps :
  fs_is_terminal <$> fetch_step loop_db 30 = Some true
  ∧ get_valid_forward_steps loop_db 1 30 = Ok [10].
Proof. by vm_compute. Qed.

Lemma terminal_step_has_no_next_witness :
  fs_is_terminal <$> fetch_step loop_db 30 = Some true
  ∧ determine_next_step loop_db 1 30 = Ok None.
Proof.
  split; [reflexivity |].
  refine (proj1 (terminal_step_has_no_next loop_db 1 30
                   {| fs_id := 30; fs_form_id := 1; fs_code := "step_3_review";
                      fs_is_terminal := true |} _ _)); reflexivity.
Defined.

(** C3, as stated, fails on the same step: the next step is none although
    the forward steps start with step 10. *)
Lemma next_step_differs_on_terminal :
  is_Some (fetch_step loop_db 30)
  ∧ determine_next_step loop_db 1 30 = Ok None
  ∧ head <$> get_valid_forward_steps loop_db 1 30 = Ok (Some 10).
Proof. split; [by eexists | by vm_compute]. Qed.

Lemma determine_next_step_head_witness :
  determine_next_step running_db 1 10
  = head <$> get_valid_forward_steps running_db 1 10.
Proof.
  refine (determine_next_step_head running_db 1 10
            {| fs_id := 10; fs_form_id := 1; fs_code := "step_1_intro";
               fs_is_terminal := false |} _).
  reflexivity.
Defined.

(** C4, as stated, fails on the running instance: step 20 is not terminal
    and has no eligible transition, and submitting it sets the current step
    to null and the status to [completed] (4). *)
Lemma submit_step_finishes_stuck_instance :
  fs_is_terminal <$> fetch_step running_db 20 = Some false
  ∧ get_valid_forward_steps running_db 1 20 = Ok []
  ∧ fi_current_step_id <$> fetch_instance running_db 1 = Some (Some 20)
  ∧ get_instance_status_id running_db "completed" = Ok 4
  ∧ let w' := (submit_step 2000 1 [] running_world).2 in
    fi_current_step_id <$> fetch_instance (w_db w') 1 = Some None
    ∧ fi_status_id <$> fetch_instance (w_db w') 1 = Some 4.
Proof. by vm_compute. Qed.

Lemma submit_step_no_forward_witness :
  let w' := (submit_step 2000 1 [] running_world).2 in
  fetch_instance (w_db w') 1
  = Some {| fi_id := 1; fi_form_id := 1; fi_user_id := 7; fi_status_id := 4;
            fi_current_step_id := None; fi_updated_at := 2000 |}
  ∧ length (instance_steps (w_db w')) = 2%nat.
Proof.
  assert (P := submit_step_no_forward 2000 1 20 4 [] running_world running_world
            {| fi_id := 1; fi_form_id := 1; fi_user_id := 7; fi_status_id := 2;
               fi_current_step_id := Some 20; fi_updated_at := 1000 |}
            {| fs_id := 20; fs_form_id := 1; fs_code := "step_2_dev";
               fs_is_terminal := false |}
            eq_refl eq_refl ltac:(lia) eq_refl eq_refl eq_refl eq_refl eq_refl).
  split; [exact (proj1 P) | exact (proj2 (proj2 (proj2 (proj2 P))))].
Defined.


Lemma evaluate_group_empty_witness :
  evaluate_group loop_db 100 (get_all_answers loop_db 1) = Ok true.
Proof.
  apply evaluate_group_empty.
  - by eexists.
  - intros c Hc. simpl in Hc.
    repeat (apply elem_of_cons in Hc as [-> | Hc]; [by vm_compute |]).
    by apply elem_of_nil in Hc.
Defined.

(** An integer beyond the doubles: the [OverflowError] of its conversion
    leaves [_check_condition]. *)
Lemma check_condition_overflow_example :
  check_condition (PInt 1) "eq" (PInt (2 ^ 1024)) = Raise OverflowError.
Proof. by vm_compute. Qed.

(** C7, as stated, fails for ['ne']: the string is not a number, its
    conversion for the comparison with 5 fails, and the condition is true. *)
Lemma check_condition_ne_coercion_failure :
  py_float (PStr "abc") = Raise ValueError
  ∧ check_condition (PStr "abc") "eq" (PInt 5) = Ok false
  ∧ check_condition (PStr "abc") "ne" (PInt 5) = Ok true.
Proof. by vm_compute. Qed.

Lemma check_condition_total_witness :
  within_int64 (PStr "abc") ∧ within_int64 (PInt 5)
  ∧ (∃ b, check_condition (PStr "abc") "eq" (PInt 5) = Ok b)
  ∧ check_condition (PStr "abc") "ne" (PInt 5) = Ok true.
Proof.
  assert (H5 : within_int64 (PInt 5)) by (simpl; lia).
  pose proof (check_condition_total (PStr "abc") "eq" (PInt 5) I H5) as [Htotal Hfail].
  split; [exact I |]. split; [exact H5 |]. split; [exact Htotal |].
  exact (proj2 (Hfail ValueError eq_refl eq_refl eq_refl)).
Defined.


Lemma check_condition_unimplemented_witness :
  Forall (λ op, check_condition (PInt 7) op (PInt 5) = Ok false) unimplemented_ops.
Proof.
  unfold unimplemented_ops.
  repeat (apply Forall_cons; split;
          [apply check_condition_unimplemented, not_elem_of_implemented_ops;
           reflexivity |]).
  apply Forall_nil_2.
Defined.

End Closed.

(** ** The further properties on the seeded store *)

Section ClosedFurther.
Import IntFloat.

Lemma evaluate_group_logic_witness :
  store_within_int64 running_db
  ∧ fetch_conditions running_db 1 ≠ []
  ∧ (∃ b, evaluate_group running_db 1 (get_all_answers running_db 1) = Ok b)
  ∧ (evaluate_group running_db 1 (get_all_answers running_db 1) = Ok true
     ↔ ∀ r, r ∈ fetch_conditions running_db 1 →
            check_condition (dict_get (get_all_answers running_db 1) (c_field_id r.1))
              r.2 (expected_of r.1) = Ok true).
Proof.
  assert (Hstore : store_within_int64 running_db) by (split; repeat constructor).
  assert (Hrows : fetch_conditions running_db 1 ≠ []).
  { intros Heq. apply (f_equal length) in Heq. vm_compute in Heq. discriminate. }
  pose proof (evaluate_group_logic running_db 1 1
                {| cg_id := 1; cg_form_id := 1; cg_logic_op := "AND" |}
                Hstore eq_refl Hrows) as (Hb & Hand & _).
  split; [exact Hstore |]. split; [exact Hrows |]. split; [exact Hb |].
  exact (Hand eq_refl).
Defined.

Lemma forward_steps_are_eligible_targets_witness :
  store_within_int64 running_db
  ∧ ∃ ts,
      get_valid_forward_steps running_db 1 10 = Ok (map t_target_step_id ts)
      ∧ StronglySorted (λ a b, t_priority a ≤ t_priority b) ts
      ∧ ts ≡ₚ where_ (eligible_from running_db 1 10) (step_transitions running_db).
Proof.
  assert (Hstore : store_within_int64 running_db) by (split; repeat constructor).
  split; [exact Hstore |].
  exact (forward_steps_are_eligible_targets running_db 1 10 Hstore).
Defined.


Lemma determine_next_step_least_priority_witness :
  store_within_int64 running_db
  ∧ ∃ t, t ∈ step_transitions running_db
         ∧ eligible_from running_db 1 10 t = true
         ∧ t_target_step_id t = 20
         ∧ ∀ t', t' ∈ step_transitions running_db →
                 eligible_from running_db 1 10 t' = true →
                 t_priority t ≤ t_priority t'.
Proof.
  assert (Hstore : store_within_int64 running_db) by (split; repeat constructor).
  split; [exact Hstore |].
  exact (determine_next_step_least_priority running_db 1 10
           {| fs_id := 10; fs_form_id := 1; fs_code := "step_1_intro";
              fs_is_terminal := false |} Hstore eq_refl eq_refl).
Defined.

Lemma fetch_route_ids_order_witness :
  step_transitions tie_db_by_id ≡ₚ step_transitions tie_db
  ∧ fetch_route_ids tie_db 1 10 = [1; 2]
  ∧ fetch_route_ids tie_db_by_id 1 10 = fetch_route_ids tie_db 1 10.
Proof.
  assert (Hperm : step_transitions tie_db_by_id ≡ₚ step_transitions tie_db)
    by apply perm_swap.
  split; [exact Hperm |]. split; [reflexivity |].
  refine (proj2 (fetch_route_ids_order tie_db tie_db_by_id 1 10 _ Hperm)).
  intros a b Ha Hb Hid.
  apply elem_of_cons in Ha as [-> | Ha]; [| apply list_elem_of_singleton in Ha as ->];
    (apply elem_of_cons in Hb as [-> | Hb]; [| apply list_elem_of_singleton in Hb as ->]);
    by try reflexivity.
Defined.


Lemma save_answers_failure_witness :
  save_answers 2000 1 20
    [ {| field_code := "fav_lang"; value := PStr "py" |};
      {| field_code := "dev_years"; value := PStr "abc" |} ] running_world
  = (Raise ValueError, running_world).
Proof.
  set (run := save_answers _ _ _ _ _).
  assert (Hfst : run.1 = Raise ValueError) by (by vm_compute).
  assert (Hrun : run = (Raise ValueError, run.2))
    by (rewrite <- Hfst; apply surjective_pairing).
  exact (eq_trans Hrun
           (f_equal (pair (Raise ValueError))
              (save_answers_failure 2000 1 20 _ running_world run.2 ValueError Hrun))).
Defined.

Lemma save_answers_other_instances_witness :
  let w' := (save_answers 2000 1 20
               [ {| field_code := "fav_lang"; value := PStr "py" |} ]
               running_world).2 in
  get_all_answers (w_db w') 2 = get_all_answers running_db 2
  ∧ set_instance_answers (instance_answers running_db) (w_db w') = running_db.
Proof.
  apply (save_answers_other_instances 2000 1 20 2
           [ {| field_code := "fav_lang"; value := PStr "py" |} ] running_world).
  lia.
Defined.

Lemma save_answers_keeps_unique_witness :
  NoDup (map answer_key (instance_answers running_db))
  ∧ NoDup (map answer_key
             (instance_answers
                (w_db (save_answers 2000 1 20
                         [ {| field_code := "fav_lang"; value := PStr "py" |};
                           {| field_code := "fav_lang"; value := PStr "go" |} ]
                         running_world).2))).
Proof.
  assert (Hnodup : NoDup (map answer_key (instance_answers running_db)))
    by exact (NoDup_singleton (1, 101)).
  split; [exact Hnodup |].
  exact (save_answers_keeps_unique 2000 1 20 _ running_world Hnodup).
Defined.


Lemma submit_step_advances_witness :
  let answers := [ {| field_code := "fav_lang"; value := PStr "py" |} ] in
  let r := (submit_step 2000 1 answers running_world).1 in
  let w' := (submit_step 2000 1 answers running_world).2 in
  fetch_instance (w_db w') 1
  = Some {| fi_id := 1; fi_form_id := 1; fi_user_id := 7; fi_status_id := 2;
            fi_current_step_id := Some 30; fi_updated_at := 2000 |}
  ∧ ∀ resp, r = Ok resp →
            r_next_step_id resp = Some 30 ∧ r_is_complete resp = false.
Proof.
  intros answers r w'.
  assert (P := submit_step_advances 2000 1 20 30 [] answers running_world
            (save_answers 2000 1 20 answers running_world).2
            {| fi_id := 1; fi_form_id := 1; fi_user_id := 7; fi_status_id := 2;
               fi_current_step_id := Some 20; fi_updated_at := 1000 |}
            {| fs_id := 20; fs_form_id := 1; fs_code := "step_2_dev";
               fs_is_terminal := false |}
            eq_refl eq_refl ltac:(lia) eq_refl eq_refl eq_refl eq_refl ltac:(lia)).
  split; [exact (proj1 P) | exact (proj2 (proj2 (proj2 P)))].
Defined.

Lemma submit_step_without_status_witness :
  get_instance_status_id (w_db unseeded_world) "completed" = Raise ValueError
  ∧ (submit_step 2000 1 [] unseeded_world).1 = Raise ValueError
  ∧ fi_current_step_id
      <$> fetch_instance (w_db (submit_step 2000 1 [] unseeded_world).2) 1
    = Some (Some 30)
  ∧ is_status_code <$> instance_steps (w_db (submit_step 2000 1 [] unseeded_world).2)
    = ["completed"; "completed"; "completed"].
Proof.
  assert (P := submit_step_without_status 2000 1 30 [] unseeded_world unseeded_world
            {| fi_id := 1; fi_form_id := 1; fi_user_id := 7; fi_status_id := 2;
               fi_current_step_id := Some 30; fi_updated_at := 1020 |}
            {| fs_id := 30; fs_form_id := 1; fs_code := "step_3_review";
               fs_is_terminal := true |}
            eq_refl eq_refl ltac:(lia) eq_refl eq_refl eq_refl eq_refl).
  destruct P as (Hrun & Hinst & _ & Hsteps).
  split; [reflexivity |]. rewrite Hrun. cbn [fst snd].
  split; [reflexivity |]. split; [by rewrite Hinst |]. by rewrite Hsteps.
Defined.

Lemma submit_step_terminal_witness :
  ∃ resp w',
    submit_step 2000 1 [] review_world = (Ok resp, w')
    ∧ r_is_complete resp = true ∧ r_next_step_id resp = None
    ∧ r_available_steps resp = fromkeys (r_completed_steps resp)
    ∧ fi_status_id <$> fetch_instance (w_db w') 1 = Some 4
    ∧ "step_3_review" ∈ r_completed_steps resp.
Proof.
  destruct (submit_step_terminal 2000 1 30 4 [] review_world review_world
              {| fi_id := 1; fi_form_id := 1; fi_user_id := 7; fi_status_id := 2;
                 fi_current_step_id := Some 30; fi_updated_at := 1020 |}
              {| fs_id := 30; fs_form_id := 1; fs_code := "step_3_review";
                 fs_is_terminal := true |}
              {| form_id := 1; form_code := "dev_survey";
                 form_start_step_id := Some 10 |}
              eq_refl eq_refl ltac:(lia) eq_refl eq_refl eq_refl eq_refl eq_refl)
    as (resp & w' & Hrun & Hcomplete & Hnext & Havail & Hinst & Hrow).
  exists resp, w'. split; [exact Hrun |]. split; [exact Hcomplete |].
  split; [exact Hnext |]. split; [exact Havail |]. split; [by rewrite Hinst |].
  apply Hrow.
  exists {| is_id := 3; is_instance_id := 1; is_step_id := 30;
            is_status_code := "entered"; is_entered_at := 1020;
            is_left_at := None |}.
  split; [| done]. by repeat constructor.
Defined.

Lemma submit_step_cache_coherent_witness :
  let run := submit_step 2000 1 [] review_world in
  ∃ resp,
    run.1 = Ok resp
    ∧ ∃ state inst',
        form_sessions run.2 !! 1 = Some state
        ∧ fetch_instance (w_db run.2) 1 = Some inst'
        ∧ ss_current_step_id state = fi_current_step_id inst'
        ∧ ss_form_id state = fi_form_id inst'
        ∧ r_next_step_id resp = if_truthy (fi_current_step_id inst')
        ∧ r_completed_steps resp = ss_completed_steps state
        ∧ r_available_steps resp = ss_available_steps state.
Proof.
  intros run.
  assert (Hfst : ∃ resp, run.1 = Ok resp) by (vm_compute; by eexists).
  destruct Hfst as [resp Hfst]. exists resp. split; [exact Hfst |].
  apply (submit_step_cache_coherent 2000 1 [] review_world run.2 resp).
  rewrite <- Hfst. apply surjective_pairing.
Defined.

Lemma navigation_summary_available_witness :
  let nav := {| nav_current_step_code := Some "step_2_dev";
                nav_completed_steps := ["step_1_intro"];
                nav_available_steps := ["step_1_intro"; "step_2_dev"] |} in
  get_navigation_summary running_db 1 (Some 20) = Ok nav
  ∧ NoDup (nav_available_steps nav)
  ∧ fromkeys (nav_completed_steps nav) `prefix_of` nav_available_steps nav
  ∧ ∀ c, c ∈ nav_available_steps nav →
         c ∈ nav_completed_steps nav
         ∨ nav_current_step_code nav = Some c
         ∨ ∃ cur forward_ids st,
             if_truthy (Some 20) = Some cur
             ∧ get_valid_forward_steps running_db 1 cur = Ok forward_ids
             ∧ fs_id st ∈ forward_ids ∧ st ∈ form_steps running_db ∧ fs_code st = c.
Proof.
  intros nav.
  assert (Hrun : get_navigation_summary running_db 1 (Some 20) = Ok nav)
    by (by vm_compute).
  pose proof (navigation_summary_available running_db 1 (Some 20) nav Hrun)
    as (Hnodup & Hprefix & _ & _ & Hall).
  split; [exact Hrun |]. split; [exact Hnodup |]. split; [exact Hprefix |].
  exact Hall.
Defined.

End ClosedFurther.
